(** * Infinity memory server: the storage layer

    A shallow embedding of [models.py] and [storage.py] of the memory MCP
    server, and the properties of project activation and of the record
    operations (store, get, list, update, delete) proved about it.

    Python text is modelled by [string]; a character stands for a code
    point below 256.  The interpreter's sources of non-determinism
    ([os.urandom] behind [uuid.uuid4], the wall clock behind
    [get_iso_timestamp]) are oracles carried by the machine state together
    with the number of values already drawn from them.  The file system is
    an explicit value restricted to the working directory of one project;
    every primitive that touches it leaves an event in a log, so that
    "before any filesystem access" is a statement about that log. *)

From Stdlib Require Import NArith Ascii String.
From stdpp Require Import base option list strings gmap.

Local Open Scope string_scope.
Local Open Scope list_scope.

(** ** models.py *)

Module Models.

(** [ALLOWED_MEMORY_TYPES]: the set literal of the source. *)
Definition ALLOWED_MEMORY_TYPES : gset string :=
  {[ "design_doc"; "project_overview"; "implementation_plan";
     "progress_tracker"; "test_plan"; "instructions"; "guidelines";
     "analysis" ]}.

(** The [Memory] dataclass. *)
Record Memory : Type := mkMemory {
  m_id : string;
  m_title : string;
  m_type : string;
  m_content : string;
  m_created_at : string;
  m_updated_at : option string
}.

(** The dictionary with the six keys ["id"], ["title"], ["type"],
    ["content"], ["created_at"], ["updated_at"] that [to_dict] builds and
    that the collection file stores.  [None] at ["updated_at"] is JSON
    [null] (or the key missing, which [data.get] reads as [None]). *)
Record mem_dict : Type := mkDict {
  d_id : string;
  d_title : string;
  d_type : string;
  d_content : string;
  d_created_at : string;
  d_updated_at : option string
}.

Definition to_dict (self : Memory) : mem_dict :=
  {| d_id := m_id self;
     d_title := m_title self;
     d_type := m_type self;
     d_content := m_content self;
     d_created_at := m_created_at self;
     d_updated_at := m_updated_at self |}.

Definition from_dict (data : mem_dict) : Memory :=
  {| m_id := d_id data;
     m_title := d_title data;
     m_type := d_type data;
     m_content := d_content data;
     m_created_at := d_created_at data;
     m_updated_at := d_updated_at data |}.

(** The [MemoryMetadata] dataclass: no content field. *)
Record MemoryMetadata : Type := mkMeta {
  md_id : string;
  md_title : string;
  md_type : string
}.

(** The exception classes under [MemoryError]. *)
Inductive MemoryError : Type :=
| InvalidMemoryTypeError (memory_type : option string)
| MissingRequiredFieldError (field : string)
| MemoryNotFoundError (memory_id : string)
| ProjectNotActivatedError
| StorageError (message : string).

Definition error_code (e : MemoryError) : string :=
  match e with
  | InvalidMemoryTypeError _ => "invalid_memory_type"
  | MissingRequiredFieldError _ => "missing_required_field"
  | MemoryNotFoundError _ => "memory_not_found"
  | ProjectNotActivatedError => "project_not_activated"
  | StorageError _ => "storage_error"
  end.

End Models.
Export Models.

(** ** The machine: file system, oracles, exceptions *)

(** What [memories.json] (or [memories.tmp]) holds: text that [json.load]
    rejects, or a document of the shape the store writes. *)
Record collection : Type := mkCollection {
  c_project_id : option string;
  c_memories : list mem_dict
}.

Inductive file_body : Type :=
| Unparsable
| Document (data : collection).

(** The entries of [.infinity/] that the store knows. *)
Record dir_listing : Type := mkListing {
  project_id_file : option string;
  memories_json : option file_body;
  memories_tmp : option file_body
}.

Definition empty_listing : dir_listing :=
  {| project_id_file := None; memories_json := None; memories_tmp := None |}.

(** What sits at [<working_dir>/.infinity]: nothing, something that is
    not a directory, or a directory.  A directory that is not [writable]
    stands for a read-only location: creating, writing or renaming a file
    in it raises [OSError]. *)
Inductive node : Type :=
| Absent
| RegularFile
| Directory (writable : bool) (entries : dir_listing).

Record filesystem : Type := mkFs {
  working_dir_writable : bool;
  infinity_dir : node
}.

Inductive path : Type :=
| infinity_dir_path
| project_id_path
| memories_path
| temp_path.

Inductive fs_event : Type :=
| EvExists (p : path)
| EvMkdir (p : path)
| EvReadText (p : path)
| EvWriteText (p : path)
| EvOpenRead (p : path)
| EvOpenWrite (p : path)
| EvReplace (src dst : path).

Record state : Type := mkState {
  self_project_id : option string;
  fs : filesystem;
  fs_log : list fs_event;
  os_urandom : nat -> N;
  draws : nat;
  utc_now : nat -> string;
  ticks : nat
}.

Inductive exception : Type :=
| OSError
| JSONDecodeError
| Mem (e : MemoryError).

Coercion Mem : MemoryError >-> exception.

Inductive result (A : Type) : Type :=
| Ok (a : A)
| Raise (x : exception).

Arguments Ok {A} a.
Arguments Raise {A} x.

(** Computations: a result and the state they leave, also when they raise. *)
Definition M (A : Type) : Type := state -> result A * state.

Definition ret {A} (a : A) : M A := fun s => (Ok a, s).

Definition bind {A B} (m : M A) (k : A -> M B) : M B :=
  fun s => match m s with
           | (Ok a, s') => k a s'
           | (Raise x, s') => (Raise x, s')
           end.

Definition raise {A} (x : exception) : M A := fun s => (Raise x, s).

(** [try: m except handles: h]: the handler runs in the state the body
    left behind. *)
Definition try_except {A} (m : M A) (handles : exception -> bool)
    (h : exception -> M A) : M A :=
  fun s => match m s with
           | (Ok a, s') => (Ok a, s')
           | (Raise x, s') => if handles x then h x s' else (Raise x, s')
           end.

Declare Scope py_scope.
Delimit Scope py_scope with py.
Notation "x <- m ;; k" := (bind m (fun x => k))
  (at level 100, m at next level, right associativity) : py_scope.
Notation "m ;;; k" := (bind m (fun _ => k))
  (at level 100, right associativity) : py_scope.
Local Open Scope py_scope.

Definition when (b : bool) (m : M unit) : M unit :=
  if b then m else ret tt.

(** Field updates of the machine state. *)
Definition add_log (evs : list fs_event) (s : state) : state :=
  {| self_project_id := self_project_id s; fs := fs s;
     fs_log := fs_log s ++ evs;
     os_urandom := os_urandom s; draws := draws s;
     utc_now := utc_now s; ticks := ticks s |}.

Definition with_fs (f : filesystem) (s : state) : state :=
  {| self_project_id := self_project_id s; fs := f;
     fs_log := fs_log s;
     os_urandom := os_urandom s; draws := draws s;
     utc_now := utc_now s; ticks := ticks s |}.

Definition with_project_id (p : option string) (s : state) : state :=
  {| self_project_id := p; fs := fs s;
     fs_log := fs_log s;
     os_urandom := os_urandom s; draws := draws s;
     utc_now := utc_now s; ticks := ticks s |}.

Definition drawn (s : state) : state :=
  {| self_project_id := self_project_id s; fs := fs s;
     fs_log := fs_log s;
     os_urandom := os_urandom s; draws := S (draws s);
     utc_now := utc_now s; ticks := ticks s |}.

Definition ticked (s : state) : state :=
  {| self_project_id := self_project_id s; fs := fs s;
     fs_log := fs_log s;
     os_urandom := os_urandom s; draws := draws s;
     utc_now := utc_now s; ticks := S (ticks s) |}.

Definition log (ev : fs_event) : M unit :=
  fun s => (Ok tt, add_log [ev] s).

Definition get_fs : M filesystem := fun s => (Ok (fs s), s).

Definition put_fs (f : filesystem) : M unit :=
  fun s => (Ok tt, with_fs f s).

Definition get_project_id : M (option string) :=
  fun s => (Ok (self_project_id s), s).

Definition set_project_id (p : string) : M unit :=
  fun s => (Ok tt, with_project_id (Some p) s).

(** *** pathlib and open *)

Definition lookup_path (f : filesystem) (p : path) : bool :=
  match infinity_dir f, p with
  | Absent, _ => false
  | RegularFile, infinity_dir_path => true
  | RegularFile, _ => false
  | Directory _ _, infinity_dir_path => true
  | Directory _ l, project_id_path => bool_decide (is_Some (project_id_file l))
  | Directory _ l, memories_path => bool_decide (is_Some (memories_json l))
  | Directory _ l, temp_path => bool_decide (is_Some (memories_tmp l))
  end.

(** [Path.exists()]. *)
Definition exists_ (p : path) : M bool :=
  log (EvExists p) ;;;
  f <- get_fs ;;
  ret (lookup_path f p).

(** [infinity_dir.mkdir(parents=True, exist_ok=True)]. *)
Definition mkdir : M unit :=
  log (EvMkdir infinity_dir_path) ;;;
  f <- get_fs ;;
  match infinity_dir f with
  | Directory _ _ => ret tt
  | RegularFile => raise OSError
  | Absent =>
      if working_dir_writable f
      then put_fs {| working_dir_writable := working_dir_writable f;
                     infinity_dir := Directory true empty_listing |}
      else raise OSError
  end.

(** [project_id_path.read_text()]. *)
Definition read_text : M string :=
  log (EvReadText project_id_path) ;;;
  f <- get_fs ;;
  match infinity_dir f with
  | Directory _ l =>
      match project_id_file l with
      | Some text => ret text
      | None => raise OSError
      end
  | _ => raise OSError
  end.

(** [project_id_path.write_text(text)]. *)
Definition write_text (text : string) : M unit :=
  log (EvWriteText project_id_path) ;;;
  f <- get_fs ;;
  match infinity_dir f with
  | Directory true l =>
      put_fs {| working_dir_writable := working_dir_writable f;
                infinity_dir :=
                  Directory true
                    {| project_id_file := Some text;
                       memories_json := memories_json l;
                       memories_tmp := memories_tmp l |} |}
  | _ => raise OSError
  end.

(** [with open(memories_path, "r") as f: json.load(f)]. *)
Definition open_json_load : M collection :=
  log (EvOpenRead memories_path) ;;;
  f <- get_fs ;;
  match infinity_dir f with
  | Directory _ l =>
      match memories_json l with
      | Some (Document data) => ret data
      | Some Unparsable => raise JSONDecodeError
      | None => raise OSError
      end
  | _ => raise OSError
  end.

(** [with open(temp_path, "w") as f: json.dump(data, f, indent=2)]. *)
Definition open_json_dump (data : collection) : M unit :=
  log (EvOpenWrite temp_path) ;;;
  f <- get_fs ;;
  match infinity_dir f with
  | Directory true l =>
      put_fs {| working_dir_writable := working_dir_writable f;
                infinity_dir :=
                  Directory true
                    {| project_id_file := project_id_file l;
                       memories_json := memories_json l;
                       memories_tmp := Some (Document data) |} |}
  | _ => raise OSError
  end.

(** [temp_path.replace(memories_path)]. *)
Definition replace : M unit :=
  log (EvReplace temp_path memories_path) ;;;
  f <- get_fs ;;
  match infinity_dir f with
  | Directory true l =>
      match memories_tmp l with
      | Some body =>
          put_fs {| working_dir_writable := working_dir_writable f;
                    infinity_dir :=
                      Directory true
                        {| project_id_file := project_id_file l;
                           memories_json := Some body;
                           memories_tmp := None |} |}
      | None => raise OSError
      end
  | _ => raise OSError
  end.

(** *** uuid and datetime *)

(** [str.isspace] on the code points below 256. *)
Definition isspace (c : ascii) : bool :=
  match N_of_ascii c with
  | 9 | 10 | 11 | 12 | 13 | 28 | 29 | 30 | 31 | 32 | 133 | 160 => true
  | _ => false
  end%N.

Fixpoint lstrip (l : list ascii) : list ascii :=
  match l with
  | [] => []
  | c :: l' => if isspace c then lstrip l' else l
  end.

Definition rstrip (l : list ascii) : list ascii := rev (lstrip (rev l)).

(** [str.strip()]. *)
Definition strip (text : string) : string :=
  string_of_list_ascii (rstrip (lstrip (list_ascii_of_string text))).

Definition hex_digit (d : N) : ascii :=
  match (d mod 16)%N with
  | 0 => "0" | 1 => "1" | 2 => "2" | 3 => "3" | 4 => "4" | 5 => "5"
  | 6 => "6" | 7 => "7" | 8 => "8" | 9 => "9" | 10 => "a" | 11 => "b"
  | 12 => "c" | 13 => "d" | 14 => "e" | _ => "f"
  end%N%char.

(** ['%032x' % n]: for [n] below [2^128], the 32 hexadecimal digits of
    [n], most significant first. *)
Definition hex32 (n : N) : list ascii :=
  (fun i => hex_digit (N.shiftr n (4 * N.of_nat i))) <$> rev (seq 0 32).

(** [UUID(bytes=..., version=4)]: the variant and version bits are forced. *)
Definition uuid4_int (random : N) : N :=
  let int := (random mod 2 ^ 128)%N in
  let int := N.ldiff int (N.shiftl 0xc000 48) in
  let int := N.lor int (N.shiftl 0x8000 48) in
  let int := N.ldiff int (N.shiftl 0xf000 64) in
  N.lor int (N.shiftl 4 76).

(** [str(UUID)]: the digits in groups of 8, 4, 4, 4 and 12. *)
Definition uuid_str (int : N) : string :=
  let hex := hex32 int in
  let dash := "-"%char in
  string_of_list_ascii
    (take 8 hex ++ dash :: take 4 (drop 8 hex) ++ dash ::
     take 4 (drop 12 hex) ++ dash :: take 4 (drop 16 hex) ++ dash ::
     drop 20 hex).

(** [str(uuid.uuid4())]: one draw from the entropy source. *)
Definition uuid4 : M string :=
  fun s => (Ok (uuid_str (uuid4_int (os_urandom s (draws s)))), drawn s).

(** [get_iso_timestamp()]: one reading of the clock, already rendered. *)
Definition get_iso_timestamp : M string :=
  fun s => (Ok (utc_now s (ticks s)), ticked s).

(** *** The validators of models.py

    Both return [None] in the source; here they hand back the value they
    have checked, which is then known to be a string. *)

Definition validate_memory_type (memory_type : option string) : M string :=
  match memory_type with
  | Some t =>
      if decide (t ∉ ALLOWED_MEMORY_TYPES)
      then raise (InvalidMemoryTypeError memory_type)
      else ret t
  | None => raise (InvalidMemoryTypeError memory_type)
  end.

Definition validate_required_field (value : option string)
    (field_name : string) : M string :=
  match value with
  | None => raise (MissingRequiredFieldError field_name)
  | Some v =>
      if decide (v = "")
      then raise (MissingRequiredFieldError field_name)
      else ret v
  end.

(** ** storage.py *)

Module MemoryStorage.

(** [MemoryStorage(working_dir)] on a file system: nothing is touched. *)
Definition __init__ (f : filesystem) (random : nat -> N)
    (clock : nat -> string) : state :=
  {| self_project_id := None; fs := f; fs_log := [];
     os_urandom := random; draws := 0; utc_now := clock; ticks := 0 |}.

Definition is_os_error (x : exception) : bool :=
  match x with OSError => true | _ => false end.

Definition is_read_error (x : exception) : bool :=
  match x with OSError | JSONDecodeError => true | _ => false end.

Definition _write_memories_file (data : collection) : M unit :=
  try_except
    (open_json_dump data ;;;
     replace)
    is_os_error
    (fun _ => raise (StorageError "Cannot write memories file")).

Definition activate_project : M (option string) :=
  try_except
    (e <- exists_ infinity_dir_path ;;
     when (negb e) mkdir ;;;
     e <- exists_ project_id_path ;;
     (if e
      then text <- read_text ;;
           set_project_id (strip text)
      else u <- uuid4 ;;
           set_project_id u ;;;
           write_text u) ;;;
     e <- exists_ memories_path ;;
     when (negb e)
       (p <- get_project_id ;;
        _write_memories_file {| c_project_id := p; c_memories := [] |}) ;;;
     get_project_id)
    is_os_error
    (fun _ => raise (StorageError "Cannot create project directory")).

Definition _ensure_activated : M unit :=
  p <- get_project_id ;;
  match p with
  | None => raise ProjectNotActivatedError
  | Some _ => ret tt
  end.

Definition _read_memories_file : M collection :=
  try_except
    (e <- exists_ memories_path ;;
     if negb e
     then p <- get_project_id ;;
          ret {| c_project_id := p; c_memories := [] |}
     else open_json_load)
    is_read_error
    (fun _ => raise (StorageError "Cannot read memories file")).

Definition store_memory (title memory_type content : option string)
    : M string :=
  _ensure_activated ;;;
  title <- validate_required_field title "title" ;;
  memory_type <- validate_memory_type memory_type ;;
  content <- match content with
             | None => validate_required_field content "content"
             | Some c => ret c
             end ;;
  memory_id <- uuid4 ;;
  created_at <- get_iso_timestamp ;;
  let memory := {| m_id := memory_id; m_title := title;
                   m_type := memory_type; m_content := content;
                   m_created_at := created_at; m_updated_at := None |} in
  data <- _read_memories_file ;;
  let data := {| c_project_id := c_project_id data;
                 c_memories := c_memories data ++ [to_dict memory] |} in
  _write_memories_file data ;;;
  ret memory_id.

(** The [for] loop of [get_memory]: the first dictionary with the id. *)
Fixpoint get_loop (memories : list mem_dict) (memory_id : string)
    : M Memory :=
  match memories with
  | [] => raise (MemoryNotFoundError memory_id)
  | mem_dict :: rest =>
      if decide (d_id mem_dict = memory_id)
      then ret (from_dict mem_dict)
      else get_loop rest memory_id
  end.

Definition get_memory (memory_id : string) : M Memory :=
  _ensure_activated ;;;
  data <- _read_memories_file ;;
  get_loop (c_memories data) memory_id.

(** The body of the [for] loop of [list_memories]. *)
Definition list_step (memory_type : option string)
    (memories : list MemoryMetadata) (mem_dict : mem_dict)
    : list MemoryMetadata :=
  match memory_type with
  | Some t =>
      if decide (d_type mem_dict ≠ t) then memories
      else memories ++ [ {| md_id := d_id mem_dict;
                            md_title := d_title mem_dict;
                            md_type := d_type mem_dict |} ]
  | None =>
      memories ++ [ {| md_id := d_id mem_dict;
                       md_title := d_title mem_dict;
                       md_type := d_type mem_dict |} ]
  end.

Definition list_memories (memory_type : option string)
    : M (list MemoryMetadata) :=
  _ensure_activated ;;;
  data <- _read_memories_file ;;
  ret (foldl (list_step memory_type) [] (c_memories data)).

(** The [for] loop of [update_memory]: the first dictionary with the id is
    changed in place and the loop breaks; the flag is [found]. *)
Fixpoint update_loop (memories : list mem_dict) (memory_id content : string)
    : M (bool * list mem_dict) :=
  match memories with
  | [] => ret (false, [])
  | mem_dict :: rest =>
      if decide (d_id mem_dict = memory_id)
      then now <- get_iso_timestamp ;;
           ret (true,
                {| d_id := d_id mem_dict; d_title := d_title mem_dict;
                   d_type := d_type mem_dict; d_content := content;
                   d_created_at := d_created_at mem_dict;
                   d_updated_at := Some now |} :: rest)
      else r <- update_loop rest memory_id content ;;
           ret (r.1, mem_dict :: r.2)
  end.

Definition update_memory (memory_id content : string) : M unit :=
  _ensure_activated ;;;
  data <- _read_memories_file ;;
  r <- update_loop (c_memories data) memory_id content ;;
  if negb r.1 then raise (MemoryNotFoundError memory_id)
  else _write_memories_file {| c_project_id := c_project_id data;
                               c_memories := r.2 |}.

Definition delete_memory (memory_id : string) : M unit :=
  _ensure_activated ;;;
  data <- _read_memories_file ;;
  let original_length := length (c_memories data) in
  let data := {| c_project_id := c_project_id data;
                 c_memories :=
                   filter (fun m => d_id m ≠ memory_id) (c_memories data) |} in
  if decide (length (c_memories data) = original_length)
  then raise (MemoryNotFoundError memory_id)
  else _write_memories_file data.

End MemoryStorage.
Export MemoryStorage.

(** ** Calls and histories *)

(** The five record operations with their arguments, and what they hand
    back. *)
Inductive record_call : Type :=
| CallStore (title memory_type content : option string)
| CallGet (memory_id : string)
| CallList (memory_type : option string)
| CallUpdate (memory_id content : string)
| CallDelete (memory_id : string).

Inductive reply : Type :=
| ReplyId (memory_id : string)
| ReplyMemory (memory : Memory)
| ReplyList (memories : list MemoryMetadata)
| ReplyNone.

Definition invoke (c : record_call) : M reply :=
  match c with
  | CallStore title memory_type content =>
      i <- store_memory title memory_type content ;; ret (ReplyId i)
  | CallGet memory_id =>
      m <- get_memory memory_id ;; ret (ReplyMemory m)
  | CallList memory_type =>
      l <- list_memories memory_type ;; ret (ReplyList l)
  | CallUpdate memory_id content =>
      update_memory memory_id content ;;; ret ReplyNone
  | CallDelete memory_id =>
      delete_memory memory_id ;;; ret ReplyNone
  end.

(** What can happen to a working directory between two observations: a
    record operation, an activation, or a new [MemoryStorage] object taking
    over (its [project_id] starts as [None]). *)
Inductive step : Type :=
| Record_ (c : record_call)
| Activate
| NewInstance.

Definition do_step (s : state) (st : step) : state :=
  match st with
  | Record_ c => (invoke c s).2
  | Activate => (activate_project s).2
  | NewInstance => with_project_id None s
  end.

Definition run (steps : list step) (s : state) : state :=
  foldl do_step s steps.

(** ** Views of the state used in the statements *)

(** The text of [.infinity/project_id], if the file is there. *)
Definition identity (f : filesystem) : option string :=
  match infinity_dir f with
  | Directory _ l => project_id_file l
  | _ => None
  end.

(** The body of [.infinity/memories.json], if the file is there. *)
Definition backing_file (f : filesystem) : option file_body :=
  match infinity_dir f with
  | Directory _ l => memories_json l
  | _ => None
  end.

(** The collection an operation works on: the parsed backing file, or the
    empty collection tagged with the in-memory project id when the file is
    missing. *)
Definition current (s : state) : collection :=
  match backing_file (fs s) with
  | Some (Document data) => data
  | _ => {| c_project_id := self_project_id s; c_memories := [] |}
  end.

Definition readable (f : filesystem) : Prop :=
  backing_file f ≠ Some Unparsable.

(** [.infinity] is a directory in which files can be written. *)
Definition writable_dir (f : filesystem) : Prop :=
  exists l, infinity_dir f = Directory true l.

(** The file system after the backing file has been replaced by [data]. *)
Definition persist (data : collection) (f : filesystem) : filesystem :=
  match infinity_dir f with
  | Directory true l =>
      {| working_dir_writable := working_dir_writable f;
         infinity_dir :=
           Directory true
             {| project_id_file := project_id_file l;
                memories_json := Some (Document data);
                memories_tmp := None |} |}
  | _ => f
  end.

Definition read_events (f : filesystem) : list fs_event :=
  if lookup_path f memories_path
  then [EvExists memories_path; EvOpenRead memories_path]
  else [EvExists memories_path].

Definition write_events : list fs_event :=
  [EvOpenWrite temp_path; EvReplace temp_path memories_path].

(** The first dictionary with a given id, and the list with that
    dictionary rewritten by [update_memory]. *)
Definition updated (content now : string) (m : mem_dict) : mem_dict :=
  {| d_id := d_id m; d_title := d_title m; d_type := d_type m;
     d_content := content; d_created_at := d_created_at m;
     d_updated_at := Some now |}.

Definition metadata (m : mem_dict) : MemoryMetadata :=
  {| md_id := d_id m; md_title := d_title m; md_type := d_type m |}.

(** The invariants of the data model: ids are unique, kinds are allowed. *)
Definition unique_ids (memories : list mem_dict) : Prop :=
  NoDup (d_id <$> memories).

Definition kinds_allowed (memories : list mem_dict) : Prop :=
  Forall (fun m => d_type m ∈ ALLOWED_MEMORY_TYPES) memories.

(** The record [store_memory] builds from its arguments in state [s]. *)
Definition new_memory (title memory_type content : string) (s : state)
    : Memory :=
  {| m_id := uuid_str (uuid4_int (os_urandom s (draws s)));
     m_title := title; m_type := memory_type; m_content := content;
     m_created_at := utc_now s (ticks s); m_updated_at := None |}.

(** The collection with one more record at its end. *)
Definition appended (m : Memory) (data : collection) : collection :=
  {| c_project_id := c_project_id data;
     c_memories := c_memories data ++ [to_dict m] |}.

(** When a value is refused by the checks of [store_memory]. *)
Definition title_missing (title : option string) : Prop :=
  title = None \/ title = Some "".

Definition kind_invalid (memory_type : option string) : Prop :=
  forall t, memory_type = Some t -> t ∉ ALLOWED_MEMORY_TYPES.

(** [benign s s']: from [s] to [s'] the identity file kept its text, the
    backing file did not disappear nor become unparsable, and the log grew
    by events none of which writes the identity file.  A computation is
    [quiet] when every run of it is benign. *)
Definition benign (s s' : state) : Prop :=
  identity (fs s') = identity (fs s) /\
  (lookup_path (fs s) memories_path = true ->
   lookup_path (fs s') memories_path = true) /\
  (readable (fs s) -> readable (fs s')) /\
  exists evs, fs_log s' = fs_log s ++ evs /\
              EvWriteText project_id_path ∉ evs.

Definition quiet {A} (m : M A) : Prop := forall s, benign s (m s).2.

(** What one record operation can do to the collection: nothing, append
    a record of an allowed kind under the id just drawn, rewrite one
    record in place, or drop the records with some id. *)
Inductive collection_effect (fresh_id : string)
    : list mem_dict -> list mem_dict -> Prop :=
| ce_same l : collection_effect fresh_id l l
| ce_append l m :
    d_id m = fresh_id -> d_type m ∈ ALLOWED_MEMORY_TYPES ->
    collection_effect fresh_id l (l ++ [m])
| ce_update l1 m l2 content now :
    collection_effect fresh_id (l1 ++ m :: l2)
      (l1 ++ updated content now m :: l2)
| ce_delete l memory_id :
    collection_effect fresh_id l
      (filter (fun m => d_id m ≠ memory_id) l).

(** Stores on which [activate_project] was never called: a new object,
    and what record operations make of it. *)
Inductive never_called : state -> Prop :=
| nc_init f random clock : never_called (__init__ f random clock)
| nc_record s c : never_called s -> never_called (invoke c s).2.

(** Stores on which no call of [activate_project] has returned: as above,
    and also what a call that raised leaves behind. *)
Inductive never_succeeded : state -> Prop :=
| ns_init f random clock : never_succeeded (__init__ f random clock)
| ns_record s c : never_succeeded s -> never_succeeded (invoke c s).2
| ns_failed s x s' :
    never_succeeded s -> activate_project s = (Raise x, s') ->
    never_succeeded s'.

(** ** server.py *)

(** [MemoryMetadata.to_dict]: the dictionary with the keys ["id"],
    ["title"] and ["type"]. *)
Definition MemoryMetadata_to_dict (self : MemoryMetadata)
    : gmap string string :=
  {[ "id" := md_id self; "title" := md_title self; "type" := md_type self ]}.

Module Server.

(** The interpreter running the server: the module-level variable
    [storage] is [None] or holds the one [MemoryStorage] object, whose
    [project_id] is the [self_project_id] of the machine. *)
Record process : Type := mkProcess {
  storage_is_none : bool;
  machine : state
}.

(** The dictionaries the tools return: one constructor for each shape of
    success payload, and [{"error": code}]. *)
Inductive response : Type :=
| RespProjectId (project_id : option string)
| RespMemoryId (memory_id : string)
| RespMemory (memory : mem_dict)
| RespMemories (memories : list (gmap string string))
| RespSuccess
| RespError (error : string).

(** [get_storage()]: the object is made on first use, with no project id;
    making it touches no file. *)
Definition get_storage (pr : process) : process :=
  if storage_is_none pr
  then {| storage_is_none := false;
          machine := with_project_id None (machine pr) |}
  else pr.

(** [get_storage().method(...)]. *)
Definition call {A} (method : M A) (pr : process) : result A * process :=
  let pr := get_storage pr in
  let r := method (machine pr) in
  (r.1, {| storage_is_none := storage_is_none pr; machine := r.2 |}).

Definition activate_project (pr : process) : response * process :=
  match call MemoryStorage.activate_project pr with
  | (Ok project_id, pr') => (RespProjectId project_id, pr')
  | (Raise (Mem e), pr') => (RespError (error_code e), pr')
  | (Raise _, pr') => (RespError "storage_error", pr')
  end.

Definition store_memory (title type content : option string) (pr : process)
    : response * process :=
  match call (MemoryStorage.store_memory title type content) pr with
  | (Ok memory_id, pr') => (RespMemoryId memory_id, pr')
  | (Raise (Mem (InvalidMemoryTypeError t)), pr') =>
      (RespError (error_code (InvalidMemoryTypeError t)), pr')
  | (Raise (Mem (MissingRequiredFieldError f)), pr') =>
      (RespError (error_code (MissingRequiredFieldError f)), pr')
  | (Raise (Mem ProjectNotActivatedError), pr') =>
      (RespError (error_code ProjectNotActivatedError), pr')
  | (Raise _, pr') => (RespError "storage_error", pr')
  end.

Definition get_memory (memory_id : string) (pr : process)
    : response * process :=
  match call (MemoryStorage.get_memory memory_id) pr with
  | (Ok memory, pr') => (RespMemory (to_dict memory), pr')
  | (Raise (Mem (MemoryNotFoundError i)), pr') =>
      (RespError (error_code (MemoryNotFoundError i)), pr')
  | (Raise (Mem ProjectNotActivatedError), pr') =>
      (RespError (error_code ProjectNotActivatedError), pr')
  | (Raise _, pr') => (RespError "storage_error", pr')
  end.

Definition list_memories (type : option string) (pr : process)
    : response * process :=
  match call (MemoryStorage.list_memories type) pr with
  | (Ok memories, pr') =>
      (RespMemories (MemoryMetadata_to_dict <$> memories), pr')
  | (Raise (Mem ProjectNotActivatedError), pr') =>
      (RespError (error_code ProjectNotActivatedError), pr')
  | (Raise _, pr') => (RespError "storage_error", pr')
  end.

Definition update_memory (memory_id content : string) (pr : process)
    : response * process :=
  match call (MemoryStorage.update_memory memory_id content) pr with
  | (Ok _, pr') => (RespSuccess, pr')
  | (Raise (Mem (MemoryNotFoundError i)), pr') =>
      (RespError (error_code (MemoryNotFoundError i)), pr')
  | (Raise (Mem ProjectNotActivatedError), pr') =>
      (RespError (error_code ProjectNotActivatedError), pr')
  | (Raise _, pr') => (RespError "storage_error", pr')
  end.

Definition delete_memory (memory_id : string) (pr : process)
    : response * process :=
  match call (MemoryStorage.delete_memory memory_id) pr with
  | (Ok _, pr') => (RespSuccess, pr')
  | (Raise (Mem (MemoryNotFoundError i)), pr') =>
      (RespError (error_code (MemoryNotFoundError i)), pr')
  | (Raise (Mem ProjectNotActivatedError), pr') =>
      (RespError (error_code ProjectNotActivatedError), pr')
  | (Raise _, pr') => (RespError "storage_error", pr')
  end.

(** A tool call as a client sends it. *)
Inductive tool_call : Type :=
| ToolActivate
| ToolRecord (c : record_call).

Definition serve (t : tool_call) (pr : process) : response * process :=
  match t with
  | ToolActivate => activate_project pr
  | ToolRecord (CallStore title type content) =>
      store_memory title type content pr
  | ToolRecord (CallGet memory_id) => get_memory memory_id pr
  | ToolRecord (CallList type) => list_memories type pr
  | ToolRecord (CallUpdate memory_id content) =>
      update_memory memory_id content pr
  | ToolRecord (CallDelete memory_id) => delete_memory memory_id pr
  end.

(** A session: the responses in order, and the process at its end. *)
Fixpoint serve_all (ts : list tool_call) (pr : process)
    : list response * process :=
  match ts with
  | [] => ([], pr)
  | t :: ts' =>
      let r := serve t pr in
      let rs := serve_all ts' r.2 in
      (r.1 :: rs.1, rs.2)
  end.

(** The server process as it starts in a working directory. *)
Definition start (f : filesystem) (random : nat -> N)
    (clock : nat -> string) : process :=
  {| storage_is_none := true; machine := __init__ f random clock |}.

End Server.

(** ** More views of the state *)

(** The exceptions the docstrings of storage.py list for each record
    operation. *)
Definition may_raise (c : record_call) (e : MemoryError) : Prop :=
  match e with
  | ProjectNotActivatedError => True
  | StorageError message =>
      message = "Cannot read memories file" \/
      message = "Cannot write memories file"
  | InvalidMemoryTypeError t =>
      match c with CallStore _ memory_type _ => t = memory_type | _ => False end
  | MissingRequiredFieldError f =>
      match c with
      | CallStore _ _ _ => f = "title" \/ f = "content"
      | _ => False
      end
  | MemoryNotFoundError i =>
      match c with
      | CallGet memory_id | CallUpdate memory_id _ | CallDelete memory_id =>
          i = memory_id
      | _ => False
      end
  end.

(** What a record operation [c], run in state [s], can do to the
    collection: nothing; for a [store_memory] with a non-empty title, an
    allowed kind and a content, append the record built from them; for an
    [update_memory], rewrite the first record carrying the id; for a
    [delete_memory] of an id that occurs, drop the records carrying it. *)
Inductive collection_change (s : state)
    : record_call -> list mem_dict -> list mem_dict -> Prop :=
| cc_same c l : collection_change s c l l
| cc_append l title memory_type content :
    title ≠ "" -> memory_type ∈ ALLOWED_MEMORY_TYPES ->
    collection_change s
      (CallStore (Some title) (Some memory_type) (Some content)) l
      (l ++ [to_dict (new_memory title memory_type content s)])
| cc_update l1 m l2 content :
    d_id m ∉ d_id <$> l1 ->
    collection_change s (CallUpdate (d_id m) content) (l1 ++ m :: l2)
      (l1 ++ updated content (utc_now s (ticks s)) m :: l2)
| cc_delete l memory_id :
    memory_id ∈ d_id <$> l ->
    collection_change s (CallDelete memory_id) l
      (filter (fun m => d_id m ≠ memory_id) l).

(** The body of [.infinity/memories.tmp], if the file is there. *)
Definition temp_file (f : filesystem) : option file_body :=
  match infinity_dir f with
  | Directory _ l => memories_tmp l
  | _ => None
  end.

(** What [store_memory] accepts: a title that is a non-empty string, a
    kind of the enumeration, a content that is a string. *)
Definition accepted (c : record_call) : Prop :=
  match c with
  | CallStore title memory_type content =>
      exists t k ct,
        title = Some t /\ t ≠ "" /\
        memory_type = Some k /\ k ∈ ALLOWED_MEMORY_TYPES /\
        content = Some ct
  | _ => True
  end.

(** A record as [store_memory] lets it in. *)
Definition well_formed (m : mem_dict) : Prop :=
  d_title m ≠ "" /\ d_type m ∈ ALLOWED_MEMORY_TYPES.

(** The fields no operation offers to change. *)
Definition same_origin (m m' : mem_dict) : Prop :=
  d_id m' = d_id m /\ d_title m' = d_title m /\ d_type m' = d_type m /\
  d_created_at m' = d_created_at m.

(** The ids an operation can affect are told by its call. *)
Definition leaves_alone (s : state) (c : record_call) (memory_id : string)
    : Prop :=
  match c with
  | CallUpdate i _ | CallDelete i => i ≠ memory_id
  | CallStore _ _ _ =>
      uuid_str (uuid4_int (os_urandom s (draws s))) ≠ memory_id \/
      memory_id ∈ d_id <$> c_memories (current s)
  | _ => True
  end.

(** The success dictionary a tool builds from what the storage method
    returned. *)
Definition payload (r : reply) : Server.response :=
  match r with
  | ReplyId memory_id => Server.RespMemoryId memory_id
  | ReplyMemory memory => Server.RespMemory (to_dict memory)
  | ReplyList memories =>
      Server.RespMemories (MemoryMetadata_to_dict <$> memories)
  | ReplyNone => Server.RespSuccess
  end.



(** ** Concrete stores *)

Definition demo_random (n : nat) : N :=
  (N.of_nat n * 12345678901234567890123 + 987654321987654321987654321)%N.

Definition demo_clock (n : nat) : string :=
  match n with
  | 0 => "2025-01-01T00:00:00.000000Z"
  | 1 => "2025-01-01T00:00:01.000000Z"
  | 2 => "2025-01-01T00:00:02.000000Z"
  | _ => "2025-01-01T00:00:03.000000Z"
  end.

(** A working directory without [.infinity], and one whose [.infinity]
    exists, is empty and cannot be written. *)
Definition fresh_dir : filesystem :=
  {| working_dir_writable := true; infinity_dir := Absent |}.

Definition readonly_dir : filesystem :=
  {| working_dir_writable := true;
     infinity_dir := Directory false empty_listing |}.

Definition demo_new : state := __init__ fresh_dir demo_random demo_clock.

Definition demo_active : state := (activate_project demo_new).2.

Definition demo_one : state :=
  (store_memory (Some "T1") (Some "design_doc") (Some "c1") demo_active).2.

Definition demo_two : state :=
  (store_memory (Some "T2") (Some "test_plan") (Some "c2") demo_one).2.

Definition demo_id1 : string := "00000000-0330-4a8d-96ba-47c54c5a577c".
Definition demo_id2 : string := "00000000-0330-4d2a-9970-963bbd9c9c47".

(** An activated store whose backing file has gone: the directory is
    there, [memories.json] is not. *)
Definition demo_lost : state :=
  with_fs {| working_dir_writable := true;
             infinity_dir :=
               Directory true
                 {| project_id_file :=
                      Some "00000000-0330-47f0-9403-f94edb1812b1";
                    memories_json := None; memories_tmp := None |} |}
    demo_active.

(** A new store on a read-only [.infinity], after its activation failed. *)
Definition demo_failed : state :=
  (activate_project (__init__ readonly_dir demo_random demo_clock)).2.

(** A computation keeps an aspect [f] of the state, and a computation
    raises nothing but the [MemoryError]s in [P]. *)
Definition preserves {X A} (f : state -> X) (m : M A) : Prop :=
  forall s, f (m s).2 = f s.

Definition raises_within {A} (P : MemoryError -> Prop) (m : M A) : Prop :=
  forall s, match (m s).1 with
            | Ok _ => True
            | Raise (Mem e) => P e
            | Raise _ => False
            end.



(** ** Basic facts *)

Lemma add_log_add_log evs1 evs2 s :
  add_log evs2 (add_log evs1 s) = add_log (evs1 ++ evs2) s.
Proof. unfold add_log; simpl. by rewrite <- app_assoc. Qed.

Lemma bind_ok {A B} (m : M A) (k : A -> M B) s a s' :
  m s = (Ok a, s') -> bind m k s = k a s'.
Proof. unfold bind. by intros ->. Qed.

Lemma bind_raise {A B} (m : M A) (k : A -> M B) s x s' :
  m s = (Raise x, s') -> bind m k s = (Raise x, s').
Proof. unfold bind. by intros ->. Qed.

(** What [_read_memories_file] returns and leaves, in every state. *)
Lemma _read_memories_file_eq s :
  _read_memories_file s =
    (match backing_file (fs s) with
     | Some Unparsable => Raise (Mem (StorageError "Cannot read memories file"))
     | _ => Ok (current s)
     end,
     add_log (read_events (fs s)) s).
Proof.
  destruct s as [p [w [| |? [i [[|d]|] t]]] lg r n c k];
    cbv -[app]; rewrite <- ?app_assoc; reflexivity.
Qed.

(** What [_write_memories_file] returns and leaves, in every state. *)
Lemma _write_memories_file_eq data s :
  _write_memories_file data s =
    match infinity_dir (fs s) with
    | Directory true _ =>
        (Ok tt, add_log write_events (with_fs (persist data (fs s)) s))
    | _ =>
        (Raise (Mem (StorageError "Cannot write memories file")),
         add_log [EvOpenWrite temp_path] s)
    end.
Proof.
  destruct s as [p [w [| |[] [i j t]]] lg r n c k];
    cbv -[app]; rewrite <- ?app_assoc; reflexivity.
Qed.

Lemma _ensure_activated_some s p :
  self_project_id s = Some p -> _ensure_activated s = (Ok tt, s).
Proof. unfold _ensure_activated, bind, get_project_id. by intros ->. Qed.

Lemma _ensure_activated_none s :
  self_project_id s = None ->
  _ensure_activated s = (Raise (Mem ProjectNotActivatedError), s).
Proof. unfold _ensure_activated, bind, get_project_id. by intros ->. Qed.

(** ** The loops *)

Lemma get_loop_state (memories : list mem_dict) memory_id s :
  (get_loop memories memory_id s).2 = s.
Proof.
  induction memories as [|m l IH]; simpl; [done|].
  by destruct (decide (d_id m = memory_id)).
Qed.

Lemma get_loop_absent (memories : list mem_dict) memory_id s :
  memory_id ∉ d_id <$> memories ->
  get_loop memories memory_id s = (Raise (Mem (MemoryNotFoundError memory_id)), s).
Proof.
  induction memories as [|m l IH]; simpl; intros Hn; [done|].
  apply not_elem_of_cons in Hn as [Hne Hn].
  destruct (decide (d_id m = memory_id)); [congruence | auto].
Qed.

Lemma get_loop_first (l1 : list mem_dict) m l2 memory_id s :
  memory_id ∉ d_id <$> l1 -> d_id m = memory_id ->
  get_loop (l1 ++ m :: l2) memory_id s = (Ok (from_dict m), s).
Proof.
  induction l1 as [|m' l IH]; simpl; intros Hn Hm.
  - by rewrite decide_True.
  - apply not_elem_of_cons in Hn as [Hne Hn].
    rewrite decide_False by congruence. auto.
Qed.

(** A list holding an id splits at the first dictionary that carries it. *)
Lemma split_first_id (memories : list mem_dict) (memory_id : string) :
  memory_id ∈ d_id <$> memories ->
  exists l1 m l2,
    memories = l1 ++ m :: l2 /\ (memory_id ∉ d_id <$> l1) /\ d_id m = memory_id.
Proof.
  induction memories as [|m l IH]; simpl; intros Hin.
  - by apply elem_of_nil in Hin.
  - destruct (decide (d_id m = memory_id)) as [E|E].
    + exists [], m, l. split_and!; [done | apply not_elem_of_nil | done].
    + apply elem_of_cons in Hin as [Hin|Hin]; [congruence|].
      destruct (IH Hin) as (l1 & m' & l2 & -> & Hn & Hm).
      exists (m :: l1), m', l2. split_and!; [done | | done].
      simpl. apply not_elem_of_cons. split; [congruence | done].
Qed.

Lemma update_loop_absent (memories : list mem_dict) memory_id content s :
  memory_id ∉ d_id <$> memories ->
  update_loop memories memory_id content s = (Ok (false, memories), s).
Proof.
  induction memories as [|m l IH]; simpl; intros Hn; [done|].
  apply not_elem_of_cons in Hn as [Hne Hn].
  rewrite decide_False by congruence.
  unfold bind. by rewrite (IH Hn).
Qed.

Lemma update_loop_first (l1 : list mem_dict) m l2 memory_id content s :
  memory_id ∉ d_id <$> l1 -> d_id m = memory_id ->
  update_loop (l1 ++ m :: l2) memory_id content s =
    (Ok (true, l1 ++ updated content (utc_now s (ticks s)) m :: l2), ticked s).
Proof.
  induction l1 as [|m' l IH]; simpl; intros Hn Hm.
  - by rewrite decide_True.
  - apply not_elem_of_cons in Hn as [Hne Hn].
    rewrite decide_False by congruence.
    unfold bind. by rewrite (IH Hn Hm).
Qed.

Lemma list_loop_acc memory_type acc (memories : list mem_dict) :
  foldl (list_step memory_type) acc memories =
    acc ++ (metadata <$>
              match memory_type with
              | Some t => filter (fun m => d_type m = t) memories
              | None => memories
              end).
Proof.
  revert acc. induction memories as [|m l IH]; intros acc; simpl.
  - destruct memory_type; by rewrite app_nil_r.
  - rewrite IH. unfold list_step. destruct memory_type as [t|].
    + rewrite filter_cons.
      destruct (decide (d_type m ≠ t)) as [E|E].
      * by rewrite decide_False.
      * apply dec_stable in E. rewrite decide_True by done.
        simpl. by rewrite <- app_assoc.
    + simpl. by rewrite <- app_assoc.
Qed.

Lemma filter_none {A} (P : A -> Prop) `{!forall x, Decision (P x)}
    (l : list A) :
  Forall (fun x => ~ P x) l -> filter P l = [].
Proof.
  induction 1 as [|x l Hx _ IH]; [done|].
  by rewrite filter_cons, decide_False.
Qed.

Lemma filter_other_ids (memories : list mem_dict) (memory_id : string) :
  memory_id ∉ d_id <$> memories ->
  filter (fun m => d_id m ≠ memory_id) memories = memories.
Proof.
  induction memories as [|m l IH]; simpl; intros Hn; [done|].
  apply not_elem_of_cons in Hn as [Hne Hn].
  rewrite filter_cons, decide_True by congruence. by rewrite IH.
Qed.

Lemma filter_id_absent (memories : list mem_dict) (memory_id : string) :
  memory_id ∉ d_id <$> filter (fun m => d_id m ≠ memory_id) memories.
Proof.
  intros Hin. apply list_elem_of_fmap in Hin as (m & E & Hm).
  apply list_elem_of_filter in Hm as [Hne _]. congruence.
Qed.

(** ** The operations as equations *)

Lemma validate_required_field_ok v field_name s :
  v ≠ "" -> validate_required_field (Some v) field_name s = (Ok v, s).
Proof. intros H. unfold validate_required_field. by rewrite decide_False. Qed.

Lemma validate_memory_type_ok t s :
  t ∈ ALLOWED_MEMORY_TYPES -> validate_memory_type (Some t) s = (Ok t, s).
Proof.
  intros H. unfold validate_memory_type.
  rewrite decide_False; [done | by intros ?].
Qed.

Lemma validate_memory_type_bad t s :
  t ∉ ALLOWED_MEMORY_TYPES ->
  validate_memory_type (Some t) s =
    (Raise (Mem (InvalidMemoryTypeError (Some t))), s).
Proof. intros H. unfold validate_memory_type. by rewrite decide_True. Qed.

Lemma store_memory_eq title memory_type content s p :
  self_project_id s = Some p ->
  title ≠ "" -> memory_type ∈ ALLOWED_MEMORY_TYPES ->
  store_memory (Some title) (Some memory_type) (Some content) s =
    let memory := new_memory title memory_type content s in
    let s1 := add_log (read_events (fs s)) (ticked (drawn s)) in
    match backing_file (fs s) with
    | Some Unparsable =>
        (Raise (Mem (StorageError "Cannot read memories file")), s1)
    | _ =>
        match infinity_dir (fs s) with
        | Directory true _ =>
            (Ok (m_id memory),
             add_log write_events
               (with_fs (persist (appended memory (current s)) (fs s)) s1))
        | _ =>
            (Raise (Mem (StorageError "Cannot write memories file")),
             add_log [EvOpenWrite temp_path] s1)
        end
    end.
Proof.
  intros Hp Ht Hk. unfold store_memory.
  rewrite (bind_ok _ _ _ _ _ (_ensure_activated_some _ _ Hp)).
  rewrite (bind_ok _ _ _ _ _ (validate_required_field_ok _ _ _ Ht)).
  rewrite (bind_ok _ _ _ _ _ (validate_memory_type_ok _ _ Hk)).
  unfold bind at 1. unfold ret at 1.
  unfold bind at 1. unfold uuid4 at 1.
  unfold bind at 1. unfold get_iso_timestamp at 1.
  unfold bind at 1. rewrite _read_memories_file_eq.
  destruct s as [q [w nd] lg r n c k]; simpl in *.
  destruct nd as [| |wr [i [[|d]|] t]]; try reflexivity;
    cbn [backing_file fs infinity_dir memories_json];
    unfold bind; rewrite _write_memories_file_eq; destruct wr; reflexivity.
Qed.

Lemma get_memory_eq memory_id s p :
  self_project_id s = Some p ->
  get_memory memory_id s =
    match backing_file (fs s) with
    | Some Unparsable =>
        (Raise (Mem (StorageError "Cannot read memories file")),
         add_log (read_events (fs s)) s)
    | _ => get_loop (c_memories (current s)) memory_id
             (add_log (read_events (fs s)) s)
    end.
Proof.
  intros Hp. unfold get_memory.
  rewrite (bind_ok _ _ _ _ _ (_ensure_activated_some _ _ Hp)).
  unfold bind. rewrite _read_memories_file_eq.
  by destruct (backing_file (fs s)) as [[|d]|].
Qed.

Lemma list_memories_eq memory_type s p :
  self_project_id s = Some p ->
  list_memories memory_type s =
    (match backing_file (fs s) with
     | Some Unparsable =>
         Raise (Mem (StorageError "Cannot read memories file"))
     | _ => Ok (metadata <$>
                  match memory_type with
                  | Some t =>
                      filter (fun m => d_type m = t) (c_memories (current s))
                  | None => c_memories (current s)
                  end)
     end,
     add_log (read_events (fs s)) s).
Proof.
  intros Hp. unfold list_memories.
  rewrite (bind_ok _ _ _ _ _ (_ensure_activated_some _ _ Hp)).
  unfold bind. rewrite _read_memories_file_eq.
  destruct (backing_file (fs s)) as [[|d]|]; try done;
    unfold ret; by rewrite list_loop_acc.
Qed.

Lemma update_memory_absent memory_id content s p :
  self_project_id s = Some p -> readable (fs s) ->
  memory_id ∉ d_id <$> c_memories (current s) ->
  update_memory memory_id content s =
    (Raise (Mem (MemoryNotFoundError memory_id)),
     add_log (read_events (fs s)) s).
Proof.
  intros Hp Hr Hn. unfold update_memory.
  rewrite (bind_ok _ _ _ _ _ (_ensure_activated_some _ _ Hp)).
  unfold bind. rewrite _read_memories_file_eq. unfold readable in Hr.
  destruct (backing_file (fs s)) as [[|d]|] eqn:E; try done;
    by rewrite update_loop_absent.
Qed.

Lemma update_memory_first memory_id content s p l1 m l2 :
  self_project_id s = Some p -> readable (fs s) ->
  c_memories (current s) = l1 ++ m :: l2 ->
  memory_id ∉ d_id <$> l1 -> d_id m = memory_id ->
  update_memory memory_id content s =
    let s1 := ticked (add_log (read_events (fs s)) s) in
    let data :=
      {| c_project_id := c_project_id (current s);
         c_memories := l1 ++ updated content (utc_now s (ticks s)) m :: l2 |} in
    match infinity_dir (fs s) with
    | Directory true _ =>
        (Ok tt, add_log write_events (with_fs (persist data (fs s)) s1))
    | _ =>
        (Raise (Mem (StorageError "Cannot write memories file")),
         add_log [EvOpenWrite temp_path] s1)
    end.
Proof.
  intros Hp Hr Hc Hn Hm. unfold update_memory.
  rewrite (bind_ok _ _ _ _ _ (_ensure_activated_some _ _ Hp)).
  unfold bind. rewrite _read_memories_file_eq. unfold readable in Hr.
  destruct (backing_file (fs s)) as [[|d]|] eqn:E; try done;
    rewrite Hc, (update_loop_first _ _ _ _ _ _ Hn Hm); simpl;
    rewrite _write_memories_file_eq; simpl;
    by destruct (infinity_dir (fs s)) as [| |[] ?].
Qed.

Lemma delete_memory_eq memory_id s p :
  self_project_id s = Some p -> readable (fs s) ->
  delete_memory memory_id s =
    let s1 := add_log (read_events (fs s)) s in
    let kept :=
      filter (fun m => d_id m ≠ memory_id) (c_memories (current s)) in
    if decide (length kept = length (c_memories (current s)))
    then (Raise (Mem (MemoryNotFoundError memory_id)), s1)
    else
      match infinity_dir (fs s) with
      | Directory true _ =>
          (Ok tt,
           add_log write_events
             (with_fs (persist {| c_project_id := c_project_id (current s);
                                  c_memories := kept |} (fs s)) s1))
      | _ =>
          (Raise (Mem (StorageError "Cannot write memories file")),
           add_log [EvOpenWrite temp_path] s1)
      end.
Proof.
  intros Hp Hr. unfold delete_memory.
  rewrite (bind_ok _ _ _ _ _ (_ensure_activated_some _ _ Hp)).
  unfold bind. rewrite _read_memories_file_eq. unfold readable in Hr.
  destruct (backing_file (fs s)) as [[|d]|] eqn:E; try done; simpl;
    (case_decide; [done|]); rewrite _write_memories_file_eq; simpl;
    by destruct (infinity_dir (fs s)) as [| |[] ?].
Qed.

(** ** Identifiers and activation *)

Lemma hex_digit_not_space d : isspace (hex_digit d) = false.
Proof.
  unfold hex_digit. destruct (d mod 16)%N as [|p]; [reflexivity|].
  do 4 (try destruct p as [p|p|]); reflexivity.
Qed.

Lemma lstrip_head c l : isspace c = false -> lstrip (c :: l) = c :: l.
Proof. simpl. by intros ->. Qed.

Lemma rstrip_last l c : isspace c = false -> rstrip (l ++ [c]) = l ++ [c].
Proof.
  intros H. unfold rstrip. rewrite rev_app_distr. simpl rev at 2.
  simpl app. rewrite (lstrip_head _ _ H).
  change (c :: rev l) with ([c] ++ rev l).
  by rewrite rev_app_distr, rev_involutive.
Qed.

(** Text that starts and ends with a visible character is left alone. *)
Lemma strip_visible c1 l c2 :
  isspace c1 = false -> isspace c2 = false ->
  strip (string_of_list_ascii (c1 :: l ++ [c2])) =
    string_of_list_ascii (c1 :: l ++ [c2]).
Proof.
  intros H1 H2. unfold strip.
  rewrite list_ascii_of_string_of_list_ascii, (lstrip_head _ _ H1).
  change (c1 :: l ++ [c2]) with ((c1 :: l) ++ [c2]).
  by rewrite (rstrip_last _ _ H2).
Qed.

(** A rendered UUID has no white space to strip. *)
Lemma strip_uuid_str int : strip (uuid_str int) = uuid_str int.
Proof.
  unfold uuid_str, hex32.
  set (g := fun i => hex_digit (N.shiftr int (4 * N.of_nat i))).
  assert (Hg : forall i, isspace (g i) = false)
    by (intros i; apply hex_digit_not_space).
  clearbody g. cbn [rev seq app fmap list_fmap take drop].
  match goal with
  | |- strip (string_of_list_ascii (?c1 :: ?l)) = _ =>
      change l with (removelast l ++ [g 0%nat])
  end.
  apply strip_visible; apply Hg.
Qed.

(** Activation in a directory that already holds both files: the id is
    read back, nothing is written. *)
Lemma activate_project_again s text :
  identity (fs s) = Some text ->
  lookup_path (fs s) memories_path = true ->
  activate_project s =
    (Ok (Some (strip text)),
     add_log [EvExists infinity_dir_path; EvExists project_id_path;
              EvReadText project_id_path; EvExists memories_path]
       (with_project_id (Some (strip text)) s)).
Proof.
  destruct s as [q [w [| |wr [i j t]]] lg r n c k]; try done.
  cbn [identity fs infinity_dir project_id_file]. intros ->.
  destruct j as [b|]; [intros _ | done].
  cbv -[app strip]. by rewrite <- !app_assoc.
Qed.

(** A successful activation leaves both files in place, and the id it
    returns is the stripped text of the identity file. *)
Lemma activate_project_establishes s p s1 :
  activate_project s = (Ok p, s1) ->
  exists text,
    p = Some (strip text) /\ identity (fs s1) = Some text /\
    lookup_path (fs s1) memories_path = true.
Proof.
  destruct s as [q [w [| |wr [i j t]]] lg r n c k].
  - destruct w; cbv -[app strip uuid_str uuid4_int]; intros [= <- <-];
      eexists; by rewrite strip_uuid_str.
  - cbv -[app strip uuid_str uuid4_int]. intros [=].
  - destruct i as [text|], j as [b|], wr;
      cbv -[app strip uuid_str uuid4_int]; intros [= <- <-];
      eexists; (split_and!; [|reflexivity|reflexivity]);
      try reflexivity; by rewrite strip_uuid_str.
Qed.

(** ** What no record operation does *)

Lemma benign_same s s' :
  fs s' = fs s -> fs_log s' = fs_log s -> benign s s'.
Proof.
  intros Hf Hl. unfold benign. rewrite Hf, Hl.
  split_and!; [done | done | done |].
  exists []. split; [by rewrite app_nil_r | apply not_elem_of_nil].
Qed.

Lemma benign_refl s : benign s s.
Proof. by apply benign_same. Qed.

Lemma benign_trans s1 s2 s3 : benign s1 s2 -> benign s2 s3 -> benign s1 s3.
Proof.
  intros (Hi & Hm & Hr & evs & Hl & Hn) (Hi' & Hm' & Hr' & evs' & Hl' & Hn').
  split_and!; [congruence | auto | auto |].
  exists (evs ++ evs'). split.
  - by rewrite Hl', Hl, app_assoc.
  - rewrite elem_of_app. tauto.
Qed.

Ltac not_in_events :=
  let H := fresh in
  intros H;
  repeat (apply elem_of_cons in H as [H|H]; [discriminate H|]);
  by apply elem_of_nil in H.

Lemma benign_add_log evs s :
  EvWriteText project_id_path ∉ evs -> benign s (add_log evs s).
Proof. intros H. split_and!; [done | done | done | by exists evs]. Qed.

Lemma benign_persist data s : benign s (with_fs (persist data (fs s)) s).
Proof.
  split_and!.
  - destruct s as [q [w [| |[] [i j t]]] lg r n c k]; reflexivity.
  - destruct s as [q [w [| |[] [i j t]]] lg r n c k]; done.
  - destruct s as [q [w [| |[] [i j t]]] lg r n c k]; done.
  - exists []. split; [by rewrite app_nil_r | apply not_elem_of_nil].
Qed.

Lemma quiet_pure {A} (m : M A) : (forall s, (m s).2 = s) -> quiet m.
Proof. intros H s. rewrite H. apply benign_refl. Qed.

Lemma quiet_ret {A} (a : A) : quiet (ret a).
Proof. by apply quiet_pure. Qed.

Lemma quiet_raise {A} x : quiet (@raise A x).
Proof. by apply quiet_pure. Qed.

Lemma quiet_bind {A B} (m : M A) (k : A -> M B) :
  quiet m -> (forall a, quiet (k a)) -> quiet (bind m k).
Proof.
  intros Hm Hk s. unfold bind. specialize (Hm s).
  destruct (m s) as [[a|x] s']; simpl in *; [|done].
  eapply benign_trans; [done | apply Hk].
Qed.

Lemma quiet_ensure_activated : quiet _ensure_activated.
Proof.
  apply quiet_pure. intros s. unfold _ensure_activated, bind, get_project_id.
  by destruct (self_project_id s).
Qed.

Lemma quiet_validate_required_field v f : quiet (validate_required_field v f).
Proof.
  apply quiet_pure. intros s. unfold validate_required_field.
  destruct v; [case_decide|]; done.
Qed.

Lemma quiet_validate_memory_type t : quiet (validate_memory_type t).
Proof.
  apply quiet_pure. intros s. unfold validate_memory_type.
  destruct t; [case_decide|]; done.
Qed.

Lemma quiet_uuid4 : quiet uuid4.
Proof. intros s. by apply benign_same. Qed.

Lemma quiet_get_iso_timestamp : quiet get_iso_timestamp.
Proof. intros s. by apply benign_same. Qed.

Lemma quiet_read : quiet _read_memories_file.
Proof.
  intros s. rewrite _read_memories_file_eq. apply benign_add_log.
  unfold read_events. case_match; not_in_events.
Qed.

Lemma quiet_write data : quiet (_write_memories_file data).
Proof.
  intros s. rewrite _write_memories_file_eq.
  destruct (infinity_dir (fs s)) as [| |[] l] eqn:E; simpl;
    try (apply benign_add_log; not_in_events).
  eapply benign_trans; [apply benign_persist|].
  apply benign_add_log. unfold write_events. not_in_events.
Qed.

Lemma quiet_get_loop memories memory_id : quiet (get_loop memories memory_id).
Proof. apply quiet_pure. intros s. apply get_loop_state. Qed.

Lemma quiet_update_loop memories memory_id content :
  quiet (update_loop memories memory_id content).
Proof.
  induction memories as [|m l IH]; simpl.
  - apply quiet_ret.
  - case_decide.
    + apply quiet_bind; [apply quiet_get_iso_timestamp|].
      intros; apply quiet_ret.
    + apply quiet_bind; [done|]. intros; apply quiet_ret.
Qed.

Create HintDb quiet.
#[local] Hint Resolve quiet_ret quiet_raise quiet_ensure_activated
  quiet_validate_required_field quiet_validate_memory_type quiet_uuid4
  quiet_get_iso_timestamp quiet_read quiet_write quiet_get_loop
  quiet_update_loop : quiet.

Ltac quiet_steps :=
  repeat first
    [ apply quiet_bind; [|intros]
    | progress auto with quiet
    | match goal with
      | |- quiet (match ?x with _ => _ end) => destruct x
      end ].

Lemma quiet_invoke c : quiet (invoke c).
Proof.
  destruct c; simpl;
    unfold store_memory, get_memory, list_memories, update_memory,
      delete_memory; quiet_steps.
Qed.

(** The same for a whole step, once both files are in place. *)
Lemma benign_step s st :
  is_Some (identity (fs s)) ->
  lookup_path (fs s) memories_path = true ->
  benign s (do_step s st).
Proof.
  intros [text Hi] Hm. destruct st as [c| |]; simpl.
  - apply quiet_invoke.
  - rewrite (activate_project_again _ _ Hi Hm). simpl.
    eapply benign_trans; [|apply benign_add_log; not_in_events].
    by apply benign_same.
  - by apply benign_same.
Qed.

Lemma benign_run steps s :
  is_Some (identity (fs s)) ->
  lookup_path (fs s) memories_path = true ->
  benign s (run steps s).
Proof.
  revert s. induction steps as [|st steps IH]; intros s Hi Hm; simpl.
  - apply benign_refl.
  - pose proof (benign_step s st Hi Hm) as Hb.
    eapply benign_trans; [exact Hb|].
    destruct Hb as (Hi' & Hm' & _ & _).
    apply IH; [by rewrite Hi' | auto].
Qed.

(** ** C1: create then read *)

(** C1.  On an activated store whose directory can be written and whose
    backing file can be read, for a non-empty title, a kind of the
    enumeration and a content that is a string, [store_memory] returns the
    id it drew, and [get_memory] of that id returns a record with exactly
    that title, kind and content, with [created_at] the clock reading taken
    by the call and [updated_at] absent.  The drawn id is assumed not to
    be in the collection already, as for a random UUID. *)
Theorem store_then_get_round_trip s p title memory_type content :
  self_project_id s = Some p ->
  writable_dir (fs s) -> readable (fs s) ->
  title ≠ "" -> memory_type ∈ ALLOWED_MEMORY_TYPES ->
  uuid_str (uuid4_int (os_urandom s (draws s)))
    ∉ d_id <$> c_memories (current s) ->
  exists memory_id s1 m s2,
    store_memory (Some title) (Some memory_type) (Some content) s
      = (Ok memory_id, s1) /\
    get_memory memory_id s1 = (Ok m, s2) /\
    m_id m = memory_id /\ m_title m = title /\ m_type m = memory_type /\
    m_content m = content /\
    m_created_at m = utc_now s (ticks s) /\ m_updated_at m = None.
Proof.
  intros Hp [l Hw] Hr Ht Hk Hfresh.
  pose proof (store_memory_eq _ _ content _ _ Hp Ht Hk) as Hs.
  rewrite Hw in Hs. cbv zeta in Hs.
  assert (Hb : match backing_file (fs s) with
               | Some Unparsable => False | _ => True end).
  { unfold readable in Hr. by destruct (backing_file (fs s)) as [[|?]|]. }
  set (memory := new_memory title memory_type content s) in *.
  set (s1 := add_log write_events
               (with_fs (persist (appended memory (current s)) (fs s))
                  (add_log (read_events (fs s)) (ticked (drawn s))))) in *.
  assert (Hs' : store_memory (Some title) (Some memory_type) (Some content) s
                = (Ok (m_id memory), s1)).
  { rewrite Hs. by destruct (backing_file (fs s)) as [[|?]|]. }
  assert (Hp1 : self_project_id s1 = Some p) by done.
  assert (Hb1 : backing_file (fs s1)
                = Some (Document (appended memory (current s)))).
  { subst s1. simpl. unfold persist, backing_file. by rewrite Hw. }
  exists (m_id memory), s1, memory, (add_log (read_events (fs s1)) s1).
  split; [done|]. split; [|done].
  rewrite (get_memory_eq _ _ _ Hp1), Hb1.
  unfold current. rewrite Hb1. simpl.
  by rewrite (get_loop_first _ (to_dict memory) [] _ _ Hfresh eq_refl).
Qed.

Lemma store_then_get_round_trip_witness :
  exists memory_id s1 m s2,
    store_memory (Some "T1") (Some "design_doc") (Some "c1") demo_active
      = (Ok memory_id, s1) /\
    get_memory memory_id s1 = (Ok m, s2) /\
    m_id m = memory_id /\ m_title m = "T1" /\ m_type m = "design_doc" /\
    m_content m = "c1" /\
    m_created_at m = utc_now demo_active (ticks demo_active) /\
    m_updated_at m = None.
Proof.
  apply (store_then_get_round_trip demo_active
           "00000000-0330-47f0-9403-f94edb1812b1").
  - vm_compute. reflexivity.
  - eexists. vm_compute. reflexivity.
  - vm_compute. discriminate.
  - discriminate.
  - apply (bool_decide_unpack _). vm_compute. exact I.
  - apply (bool_decide_unpack _). vm_compute. exact I.
Defined.

(** ** C2 and C3: validation *)

(** The kinds [validate_memory_type] lets through are the eight strings of
    [ALLOWED_MEMORY_TYPES], and no other value. *)
Lemma validate_memory_type_accepts memory_type s :
  (exists t, validate_memory_type memory_type s = (Ok t, s)) <->
  exists t, memory_type = Some t /\
    t ∈ ["design_doc"; "project_overview"; "implementation_plan";
         "progress_tracker"; "test_plan"; "instructions"; "guidelines";
         "analysis"].
Proof.
  assert (Hset : forall t : string,
    t ∈ ALLOWED_MEMORY_TYPES <->
    t ∈ ["design_doc"; "project_overview"; "implementation_plan";
         "progress_tracker"; "test_plan"; "instructions"; "guidelines";
         "analysis"]).
  { intros t. unfold ALLOWED_MEMORY_TYPES.
    rewrite !elem_of_union, !elem_of_singleton, !elem_of_cons, elem_of_nil.
    tauto. }
  split.
  - intros [t H]. destruct memory_type as [k|]; [|done].
    exists k. split; [done|]. apply Hset.
    unfold validate_memory_type in H. by case_decide.
  - intros (t & -> & Ht). exists t.
    apply validate_memory_type_ok. by apply Hset.
Qed.

(** Every kind of the enumeration in the source is stored, on an
    activated store that can be read and written. *)
Lemma store_memory_accepts_allowed s p title memory_type content :
  self_project_id s = Some p ->
  writable_dir (fs s) -> readable (fs s) ->
  title ≠ "" -> memory_type ∈ ALLOWED_MEMORY_TYPES ->
  exists s1,
    store_memory (Some title) (Some memory_type) (Some content) s
      = (Ok (uuid_str (uuid4_int (os_urandom s (draws s)))), s1).
Proof.
  intros Hp [l Hw] Hr Ht Hk.
  rewrite (store_memory_eq _ _ content _ _ Hp Ht Hk), Hw. cbv zeta.
  unfold readable in Hr.
  destruct (backing_file (fs s)) as [[|?]|]; [done | eauto | eauto].
Qed.

(** C2.  The tag that the specification writes guidelines/rules is
    spelled "guidelines" in [ALLOWED_MEMORY_TYPES]: on an activated store,
    [store_memory] with the kind "rules", which the test suite and the
    tool's documentation list as accepted, raises [InvalidMemoryTypeError]
    and leaves the state as it was. *)
Theorem store_memory_rejects_rules s p title content :
  self_project_id s = Some p -> title ≠ "" ->
  store_memory (Some title) (Some "rules") content s
    = (Raise (Mem (InvalidMemoryTypeError (Some "rules"))), s) /\
  error_code (InvalidMemoryTypeError (Some "rules")) = "invalid_memory_type".
Proof.
  intros Hp Ht. split; [|done]. unfold store_memory.
  rewrite (bind_ok _ _ _ _ _ (_ensure_activated_some _ _ Hp)).
  rewrite (bind_ok _ _ _ _ _ (validate_required_field_ok _ _ _ Ht)).
  apply bind_raise, validate_memory_type_bad.
  apply (bool_decide_unpack _). vm_compute. exact I.
Qed.

Lemma store_memory_rejects_rules_witness :
  store_memory (Some "Test rules") (Some "rules") (Some "Content") demo_active
    = (Raise (Mem (InvalidMemoryTypeError (Some "rules"))), demo_active) /\
  error_code (InvalidMemoryTypeError (Some "rules")) = "invalid_memory_type".
Proof.
  apply (store_memory_rejects_rules demo_active
           "00000000-0330-47f0-9403-f94edb1812b1").
  - vm_compute. reflexivity.
  - discriminate.
Defined.

(** C3.  On an activated store, a call of [store_memory] with a title that
    is [None] or empty, a kind outside the enumeration, or a content that
    is [None] raises the error of the first check that fails (title, then
    kind, then content), with code missing_required_field or
    invalid_memory_type, and returns the state it was given: no file is
    read or written, nothing is logged, no id or time is drawn. *)
Theorem store_memory_validation s p title memory_type content :
  self_project_id s = Some p ->
  title_missing title \/ kind_invalid memory_type \/ content = None ->
  exists e,
    store_memory title memory_type content s = (Raise (Mem e), s) /\
    (error_code e = "missing_required_field" \/
     error_code e = "invalid_memory_type") /\
    (title_missing title -> e = MissingRequiredFieldError "title") /\
    (~ title_missing title -> kind_invalid memory_type ->
     e = InvalidMemoryTypeError memory_type) /\
    (~ title_missing title -> ~ kind_invalid memory_type ->
     e = MissingRequiredFieldError "content").
Proof.
  intros Hp Hbad. unfold store_memory.
  rewrite (bind_ok _ _ _ _ _ (_ensure_activated_some _ _ Hp)).
  destruct title as [t|]; [destruct (decide (t = "")) as [->|Ht]|].
  - exists (MissingRequiredFieldError "title").
    split_and!; [done | by left | done | | ];
      intros []; by right.
  - rewrite (bind_ok _ _ _ _ _ (validate_required_field_ok _ _ _ Ht)).
    assert (Hnt : ~ title_missing (Some t)) by (intros [|]; congruence).
    destruct memory_type as [k|];
      [destruct (decide (k ∈ ALLOWED_MEMORY_TYPES)) as [Hk|Hk]|].
    + rewrite (bind_ok _ _ _ _ _ (validate_memory_type_ok _ _ Hk)).
      assert (Hnk : ~ kind_invalid (Some k)) by (intros H; by apply (H k)).
      destruct content as [c|]; [by destruct Hbad as [|[|]]|].
      exists (MissingRequiredFieldError "content").
      split_and!; [done | by left | done | done | done].
    + exists (InvalidMemoryTypeError (Some k)).
      rewrite (bind_raise _ _ _ _ _ (validate_memory_type_bad _ _ Hk)).
      split_and!; [done | by right | done | done |].
      intros _ []. by intros ? [= <-].
    + exists (InvalidMemoryTypeError None).
      split_and!; [done | by right | done | done |].
      intros _ []. by intros ?.
  - exists (MissingRequiredFieldError "title").
    split_and!; [done | by left | done | | ];
      intros []; by left.
Qed.

Lemma store_memory_validation_witness :
  exists e,
    store_memory (Some "") (Some "invalid_type") None demo_active
      = (Raise (Mem e), demo_active) /\
    (error_code e = "missing_required_field" \/
     error_code e = "invalid_memory_type") /\
    (title_missing (Some "") -> e = MissingRequiredFieldError "title") /\
    (~ title_missing (Some "") -> kind_invalid (Some "invalid_type") ->
     e = InvalidMemoryTypeError (Some "invalid_type")) /\
    (~ title_missing (Some "") -> ~ kind_invalid (Some "invalid_type") ->
     e = MissingRequiredFieldError "content").
Proof.
  apply (store_memory_validation demo_active
           "00000000-0330-47f0-9403-f94edb1812b1").
  - vm_compute. reflexivity.
  - left. right. reflexivity.
Defined.

(** ** C4: update *)

(** C4.  On an activated store whose backing file can be read:
    if some record carries the id (and the directory can be written),
    [update_memory] succeeds and the collection it leaves in the backing
    file is the old one, in the same order and under the same project id,
    with the first record that carries the id replaced by a record of the
    same id, title, kind and creation time, whose content is the new
    content and whose [updated_at] is the clock reading taken by the call;
    if no record carries the id, it raises [MemoryNotFoundError] and the
    file system is what it was. *)
Theorem update_memory_frame s p memory_id content :
  self_project_id s = Some p -> readable (fs s) ->
  (memory_id ∈ d_id <$> c_memories (current s) -> writable_dir (fs s) ->
   exists l1 m l2 m' s',
     c_memories (current s) = l1 ++ m :: l2 /\
     (memory_id ∉ d_id <$> l1) /\ d_id m = memory_id /\
     update_memory memory_id content s = (Ok tt, s') /\
     backing_file (fs s') =
       Some (Document {| c_project_id := c_project_id (current s);
                         c_memories := l1 ++ m' :: l2 |}) /\
     identity (fs s') = identity (fs s) /\
     d_content m' = content /\
     d_updated_at m' = Some (utc_now s (ticks s)) /\
     d_id m' = d_id m /\ d_title m' = d_title m /\
     d_type m' = d_type m /\ d_created_at m' = d_created_at m) /\
  (memory_id ∉ d_id <$> c_memories (current s) ->
   exists s',
     update_memory memory_id content s
       = (Raise (Mem (MemoryNotFoundError memory_id)), s') /\
     fs s' = fs s).
Proof.
  intros Hp Hr. split.
  - intros Hin [l Hw].
    destruct (split_first_id _ _ Hin) as (l1 & m & l2 & Hc & Hn & Hm).
    exists l1, m, l2, (updated content (utc_now s (ticks s)) m).
    rewrite (update_memory_first _ content _ _ _ _ _ Hp Hr Hc Hn Hm), Hw.
    eexists. split_and!; try done.
    + simpl. unfold persist, backing_file. by rewrite Hw.
    + simpl. unfold persist, identity. by rewrite Hw.
  - intros Hn. eexists.
    by rewrite (update_memory_absent _ content _ _ Hp Hr Hn).
Qed.

Lemma update_memory_frame_witness :
  (exists l1 m l2 m' s',
     c_memories (current demo_two) = l1 ++ m :: l2 /\
     (demo_id2 ∉ d_id <$> l1) /\ d_id m = demo_id2 /\
     update_memory demo_id2 "c2-new" demo_two = (Ok tt, s') /\
     backing_file (fs s') =
       Some (Document {| c_project_id := c_project_id (current demo_two);
                         c_memories := l1 ++ m' :: l2 |}) /\
     identity (fs s') = identity (fs demo_two) /\
     d_content m' = "c2-new" /\
     d_updated_at m' = Some (utc_now demo_two (ticks demo_two)) /\
     d_id m' = d_id m /\ d_title m' = d_title m /\
     d_type m' = d_type m /\ d_created_at m' = d_created_at m) /\
  (exists s',
     update_memory "invalid-uuid" "New content" demo_two
       = (Raise (Mem (MemoryNotFoundError "invalid-uuid")), s') /\
     fs s' = fs demo_two).
Proof.
  assert (Hp : self_project_id demo_two
               = Some "00000000-0330-47f0-9403-f94edb1812b1")
    by (vm_compute; reflexivity).
  assert (Hr : readable (fs demo_two)) by (vm_compute; discriminate).
  split.
  - apply (proj1 (update_memory_frame demo_two _ demo_id2 "c2-new" Hp Hr)).
    + apply (bool_decide_unpack _). vm_compute. exact I.
    + eexists. vm_compute. reflexivity.
  - apply (proj2 (update_memory_frame demo_two _ "invalid-uuid"
                    "New content" Hp Hr)).
    apply (bool_decide_unpack _). vm_compute. exact I.
Defined.

(** ** C5: delete *)

Lemma filter_unique_id (l1 : list mem_dict) m l2 :
  unique_ids (l1 ++ m :: l2) ->
  filter (fun x => d_id x ≠ d_id m) (l1 ++ m :: l2) = l1 ++ l2.
Proof.
  unfold unique_ids. rewrite fmap_app, fmap_cons.
  intros Hnd. apply NoDup_app in Hnd as (_ & H1 & Hnd).
  apply NoDup_cons in Hnd as [H2 _].
  rewrite filter_app, filter_cons, decide_False by (by intros ?).
  rewrite !filter_other_ids; [done | done |].
  intros Hin. apply (H1 _ Hin). left.
Qed.

(** C5.  On an activated store whose backing file can be read:
    if no record carries the id, [delete_memory] raises
    [MemoryNotFoundError] and the file system is what it was; if one does
    (ids being unique, as the data model has them, and the directory
    writable), it succeeds, the collection it leaves is the old one without
    that record, the others in their order, one record shorter, and
    [get_memory] of the id then raises [MemoryNotFoundError]. *)
Theorem delete_memory_removes_one s p memory_id :
  self_project_id s = Some p -> readable (fs s) ->
  (memory_id ∉ d_id <$> c_memories (current s) ->
   exists s',
     delete_memory memory_id s
       = (Raise (Mem (MemoryNotFoundError memory_id)), s') /\
     fs s' = fs s) /\
  (memory_id ∈ d_id <$> c_memories (current s) ->
   unique_ids (c_memories (current s)) -> writable_dir (fs s) ->
   exists l1 m l2 s' s'',
     c_memories (current s) = l1 ++ m :: l2 /\ d_id m = memory_id /\
     delete_memory memory_id s = (Ok tt, s') /\
     backing_file (fs s') =
       Some (Document {| c_project_id := c_project_id (current s);
                         c_memories := l1 ++ l2 |}) /\
     length (c_memories (current s)) = S (length (c_memories (current s'))) /\
     get_memory memory_id s'
       = (Raise (Mem (MemoryNotFoundError memory_id)), s'')).
Proof.
  intros Hp Hr. rewrite (delete_memory_eq _ _ _ Hp Hr). cbv zeta. split.
  - intros Hn. rewrite (filter_other_ids _ _ Hn), decide_True by done.
    by eexists.
  - intros Hin Hu [l Hw].
    destruct (split_first_id _ _ Hin) as (l1 & m & l2 & Hc & _ & Hm).
    rewrite Hc in Hu |- *. subst memory_id.
    rewrite (filter_unique_id _ _ _ Hu), Hw.
    rewrite decide_False by (rewrite !length_app; simpl; lia).
    set (data := {| c_project_id := c_project_id (current s);
                    c_memories := l1 ++ l2 |}).
    set (s' := add_log write_events
                 (with_fs (persist data (fs s))
                    (add_log (read_events (fs s)) s))).
    assert (Hb : backing_file (fs s') = Some (Document data)).
    { subst s'. simpl. unfold persist, backing_file. by rewrite Hw. }
    assert (Hcur : current s' = data) by (unfold current; by rewrite Hb).
    assert (Hp' : self_project_id s' = Some p) by done.
    exists l1, m, l2, s', (add_log (read_events (fs s')) s').
    split_and!; try done.
    + rewrite Hcur. simpl. rewrite !length_app. simpl. lia.
    + rewrite (get_memory_eq _ _ _ Hp'), Hb, Hcur. simpl.
      apply get_loop_absent.
      rewrite <- (filter_unique_id _ _ _ Hu). apply filter_id_absent.
Qed.

Lemma delete_memory_removes_one_witness :
  (exists s',
     delete_memory "invalid-uuid" demo_two
       = (Raise (Mem (MemoryNotFoundError "invalid-uuid")), s') /\
     fs s' = fs demo_two) /\
  (exists l1 m l2 s' s'',
     c_memories (current demo_two) = l1 ++ m :: l2 /\ d_id m = demo_id1 /\
     delete_memory demo_id1 demo_two = (Ok tt, s') /\
     backing_file (fs s') =
       Some (Document {| c_project_id := c_project_id (current demo_two);
                         c_memories := l1 ++ l2 |}) /\
     length (c_memories (current demo_two))
       = S (length (c_memories (current s'))) /\
     get_memory demo_id1 s'
       = (Raise (Mem (MemoryNotFoundError demo_id1)), s'')).
Proof.
  assert (Hp : self_project_id demo_two
               = Some "00000000-0330-47f0-9403-f94edb1812b1")
    by (vm_compute; reflexivity).
  assert (Hr : readable (fs demo_two)) by (vm_compute; discriminate).
  split.
  - apply (proj1 (delete_memory_removes_one demo_two _ "invalid-uuid" Hp Hr)).
    apply (bool_decide_unpack _). vm_compute. exact I.
  - apply (proj2 (delete_memory_removes_one demo_two _ demo_id1 Hp Hr)).
    + apply (bool_decide_unpack _). vm_compute. exact I.
    + apply (bool_decide_unpack _). vm_compute. exact I.
    + eexists. vm_compute. reflexivity.
Defined.

(** ** C6 and C9: list *)

(** C6.  On an activated store whose backing file can be read,
    [list_memories] with a kind filter succeeds, touches no file, and
    returns the records of the collection whose kind equals the filter, in
    the order of the collection, each reduced to its id, title and kind
    (the type of the entries has no content field); when no record has
    that kind the result is the empty list. *)
Theorem list_memories_filter s p kind :
  self_project_id s = Some p -> readable (fs s) ->
  exists result s',
    list_memories (Some kind) s = (Ok result, s') /\
    fs s' = fs s /\
    result = (fun m => {| md_id := d_id m; md_title := d_title m;
                          md_type := d_type m |})
               <$> filter (fun m => d_type m = kind) (c_memories (current s)) /\
    (Forall (fun m => d_type m ≠ kind) (c_memories (current s)) ->
     result = []).
Proof.
  intros Hp Hr. rewrite (list_memories_eq _ _ _ Hp). unfold readable in Hr.
  eexists _, _. split_and!.
  - by destruct (backing_file (fs s)) as [[|?]|].
  - done.
  - done.
  - intros Hall. by rewrite (filter_none _ _ Hall).
Qed.

Lemma list_memories_filter_witness :
  exists result s',
    list_memories (Some "test_plan") demo_two = (Ok result, s') /\
    fs s' = fs demo_two /\
    result = (fun m => {| md_id := d_id m; md_title := d_title m;
                          md_type := d_type m |})
               <$> filter (fun m => d_type m = "test_plan")
                     (c_memories (current demo_two)) /\
    (Forall (fun m => d_type m ≠ "test_plan") (c_memories (current demo_two)) ->
     result = []).
Proof.
  apply (list_memories_filter demo_two
           "00000000-0330-47f0-9403-f94edb1812b1").
  - vm_compute. reflexivity.
  - vm_compute. discriminate.
Defined.

(** C9.  [list_memories] never raises [InvalidMemoryTypeError]; with a
    filter outside the enumeration, on an activated store whose backing
    file can be read and whose records all carry kinds of the
    enumeration, it succeeds with the empty list. *)
Theorem list_memories_unknown_kind s kind :
  kind ∉ ALLOWED_MEMORY_TYPES ->
  (forall x,
     (list_memories (Some kind) s).1 ≠ Raise (Mem (InvalidMemoryTypeError x))) /\
  (forall p,
     self_project_id s = Some p -> readable (fs s) ->
     kinds_allowed (c_memories (current s)) ->
     exists s', list_memories (Some kind) s = (Ok [], s')).
Proof.
  intros Hk. split.
  - intros x. destruct (self_project_id s) as [p|] eqn:Hp.
    + rewrite (list_memories_eq _ _ _ Hp). simpl.
      by destruct (backing_file (fs s)) as [[|?]|].
    + unfold list_memories.
      by rewrite (bind_raise _ _ _ _ _ (_ensure_activated_none _ Hp)).
  - intros p Hp Hr Hall. rewrite (list_memories_eq _ _ _ Hp).
    unfold readable in Hr. eexists.
    rewrite filter_none.
    + by destruct (backing_file (fs s)) as [[|?]|].
    + eapply Forall_impl; [exact Hall|]. simpl. intros m Hm E.
      by rewrite E in Hm.
Qed.

Lemma list_memories_unknown_kind_witness :
  (forall x,
     (list_memories (Some "rules") demo_two).1
       ≠ Raise (Mem (InvalidMemoryTypeError x))) /\
  (exists s', list_memories (Some "rules") demo_two = (Ok [], s')).
Proof.
  assert (Hk : "rules" ∉ ALLOWED_MEMORY_TYPES)
    by (apply (bool_decide_unpack _); vm_compute; exact I).
  split.
  - apply (proj1 (list_memories_unknown_kind demo_two "rules" Hk)).
  - apply (proj2 (list_memories_unknown_kind demo_two "rules" Hk)
             "00000000-0330-47f0-9403-f94edb1812b1").
    + vm_compute. reflexivity.
    + vm_compute. discriminate.
    + apply (bool_decide_unpack _). vm_compute. exact I.
Defined.

(** ** C10: a missing backing file *)

Lemma lookup_memories_path f :
  lookup_path f memories_path = false <-> backing_file f = None.
Proof.
  destruct f as [w [| |wr [i [b|] t]]]; cbv; split; congruence.
Qed.

(** C10.  On an activated store, when [memories.json] does not exist at
    the time of the call, [_read_memories_file] returns the empty
    collection tagged with the in-memory project id after the one
    existence test, so [get_memory], [update_memory] and [delete_memory]
    raise [MemoryNotFoundError] and [list_memories] returns the empty
    list; none raises [StorageError]. *)
Theorem missing_backing_file_reads_empty s p :
  self_project_id s = Some p ->
  lookup_path (fs s) memories_path = false ->
  let s' := add_log [EvExists memories_path] s in
  _read_memories_file s
    = (Ok {| c_project_id := Some p; c_memories := [] |}, s') /\
  (forall memory_id,
     get_memory memory_id s
       = (Raise (Mem (MemoryNotFoundError memory_id)), s')) /\
  (forall memory_type, list_memories memory_type s = (Ok [], s')) /\
  (forall memory_id content,
     update_memory memory_id content s
       = (Raise (Mem (MemoryNotFoundError memory_id)), s')) /\
  (forall memory_id,
     delete_memory memory_id s
       = (Raise (Mem (MemoryNotFoundError memory_id)), s')).
Proof.
  intros Hp He s'.
  assert (Hb : backing_file (fs s) = None) by by apply lookup_memories_path.
  assert (Hc : current s = {| c_project_id := Some p; c_memories := [] |})
    by (unfold current; by rewrite Hb, Hp).
  assert (Hev : read_events (fs s) = [EvExists memories_path])
    by (unfold read_events; by rewrite He).
  assert (Hr : readable (fs s)) by (unfold readable; by rewrite Hb).
  split_and!.
  - by rewrite _read_memories_file_eq, Hb, Hc, Hev.
  - intros memory_id.
    by rewrite (get_memory_eq _ _ _ Hp), Hb, Hc, Hev.
  - intros memory_type.
    rewrite (list_memories_eq _ _ _ Hp), Hb, Hc, Hev.
    by destruct memory_type.
  - intros memory_id content.
    rewrite (update_memory_absent _ _ _ _ Hp Hr), Hev; [done|].
    rewrite Hc. apply not_elem_of_nil.
  - intros memory_id.
    rewrite (delete_memory_eq _ _ _ Hp Hr), Hc, Hev. done.
Qed.

Lemma missing_backing_file_reads_empty_witness :
  let s' := add_log [EvExists memories_path] demo_lost in
  _read_memories_file demo_lost
    = (Ok {| c_project_id := Some "00000000-0330-47f0-9403-f94edb1812b1";
             c_memories := [] |}, s') /\
  (forall memory_id,
     get_memory memory_id demo_lost
       = (Raise (Mem (MemoryNotFoundError memory_id)), s')) /\
  (forall memory_type, list_memories memory_type demo_lost = (Ok [], s')) /\
  (forall memory_id content,
     update_memory memory_id content demo_lost
       = (Raise (Mem (MemoryNotFoundError memory_id)), s')) /\
  (forall memory_id,
     delete_memory memory_id demo_lost
       = (Raise (Mem (MemoryNotFoundError memory_id)), s')).
Proof.
  apply (missing_backing_file_reads_empty demo_lost).
  - vm_compute. reflexivity.
  - vm_compute. reflexivity.
Defined.

(** ** C7: operations before activation *)

Lemma invoke_unset s c :
  self_project_id s = None ->
  invoke c s = (Raise (Mem ProjectNotActivatedError), s).
Proof.
  intros Hp. pose proof (_ensure_activated_none _ Hp) as H.
  destruct c; simpl; apply bind_raise;
    unfold store_memory, get_memory, list_memories, update_memory,
      delete_memory; by apply bind_raise.
Qed.

Lemma never_called_unset s : never_called s -> self_project_id s = None.
Proof.
  induction 1 as [|s c _ IH]; [done|]. by rewrite (invoke_unset _ _ IH).
Qed.

(** C7, as amended.  On a store object on which [activate_project] was
    never called, and more generally whenever the in-memory project id is
    unset, each of the five record operations raises
    [ProjectNotActivatedError] and returns the state it was given: no file
    is looked up, read or written, and nothing is logged. *)
Theorem unactivated_operations_fail s c :
  never_called s \/ self_project_id s = None ->
  invoke c s = (Raise (Mem ProjectNotActivatedError), s) /\
  error_code ProjectNotActivatedError = "project_not_activated".
Proof.
  intros H. split; [|done]. apply invoke_unset.
  destruct H as [H|H]; [by apply never_called_unset | done].
Qed.

Lemma unactivated_operations_fail_witness :
  invoke (CallStore (Some "Test") (Some "design_doc") (Some "Content")) demo_new
    = (Raise (Mem ProjectNotActivatedError), demo_new) /\
  error_code ProjectNotActivatedError = "project_not_activated".
Proof.
  apply (unactivated_operations_fail demo_new).
  left. apply nc_init.
Defined.

(** C7, as stated, fails.  On a new store whose [.infinity] directory
    exists, is empty and cannot be written, [activate_project] raises
    [StorageError] after it has set the in-memory project id; no activation
    has succeeded on that object, and yet [get_memory] looks up the backing
    file and raises [MemoryNotFoundError], [list_memories] returns the empty
    list, and [store_memory] raises [StorageError]. *)
Lemma failed_activation_not_refused :
  (activate_project (__init__ readonly_dir demo_random demo_clock)).1
    = Raise (Mem (StorageError "Cannot create project directory")) /\
  never_succeeded demo_failed /\
  invoke (CallGet "invalid-uuid") demo_failed
    = (Raise (Mem (MemoryNotFoundError "invalid-uuid")),
       add_log [EvExists memories_path] demo_failed) /\
  invoke (CallGet "invalid-uuid") demo_failed
    ≠ (Raise (Mem ProjectNotActivatedError), demo_failed) /\
  (invoke (CallList None) demo_failed).1 = Ok (ReplyList []) /\
  (invoke (CallStore (Some "Test") (Some "design_doc") (Some "Content"))
     demo_failed).1
    = Raise (Mem (StorageError "Cannot write memories file")).
Proof.
  split_and!.
  - vm_compute. reflexivity.
  - apply (ns_failed (__init__ readonly_dir demo_random demo_clock)
             (Mem (StorageError "Cannot create project directory")));
      [apply ns_init|].
    vm_compute. reflexivity.
  - vm_compute. reflexivity.
  - vm_compute. discriminate.
  - vm_compute. reflexivity.
  - vm_compute. reflexivity.
Qed.

(** ** C8: activation again *)

(** C8.  After a call of [activate_project] that returned an id, and
    whatever record operations, activations and new store objects on the
    same directory follow, a further call returns that same id, draws no
    new UUID and leaves the file system as it found it; the identity file
    still has the text it had after the first call, and no event since
    then is a write of it. *)
Theorem activate_project_idempotent s p s1 steps :
  activate_project s = (Ok p, s1) ->
  exists s3 evs,
    activate_project (run steps s1) = (Ok p, s3) /\
    fs s3 = fs (run steps s1) /\
    draws s3 = draws (run steps s1) /\
    is_Some (identity (fs s1)) /\
    identity (fs s3) = identity (fs s1) /\
    fs_log s3 = fs_log s1 ++ evs /\
    EvWriteText project_id_path ∉ evs.
Proof.
  intros Hact.
  destruct (activate_project_establishes _ _ _ Hact) as (text & -> & Hi & Hm).
  assert (His : is_Some (identity (fs s1))) by (by rewrite Hi).
  destruct (benign_run steps s1 His Hm) as (Hi2 & Hm2 & _ & evs & Hl & Hn).
  specialize (Hm2 Hm). rewrite Hi in Hi2.
  rewrite (activate_project_again _ _ Hi2 Hm2).
  eexists _, (evs ++ _). split_and!; try done.
  - simpl. by rewrite Hi2.
  - simpl. by rewrite Hl, app_assoc.
  - rewrite elem_of_app. intros [H|H]; [done|]. revert H. not_in_events.
Qed.

Lemma activate_project_idempotent_witness :
  exists s3 evs,
    activate_project
      (run [Record_ (CallStore (Some "T1") (Some "design_doc") (Some "c1"));
            NewInstance] demo_active)
      = (Ok (Some "00000000-0330-47f0-9403-f94edb1812b1"), s3) /\
    fs s3 = fs (run [Record_ (CallStore (Some "T1") (Some "design_doc")
                                (Some "c1"));
                     NewInstance] demo_active) /\
    draws s3 = draws (run [Record_ (CallStore (Some "T1") (Some "design_doc")
                                      (Some "c1"));
                           NewInstance] demo_active) /\
    is_Some (identity (fs demo_active)) /\
    identity (fs s3) = identity (fs demo_active) /\
    fs_log s3 = fs_log demo_active ++ evs /\
    EvWriteText project_id_path ∉ evs.
Proof.
  apply (activate_project_idempotent demo_new).
  vm_compute. reflexivity.
Defined.

(** ** The invariants of the data model are kept *)

Lemma current_same s s' :
  fs s' = fs s -> self_project_id s' = self_project_id s ->
  current s' = current s.
Proof. unfold current. by intros -> ->. Qed.

Lemma current_persist data s s' evs l :
  infinity_dir (fs s) = Directory true l ->
  current (add_log evs (with_fs (persist data (fs s)) s')) = data.
Proof.
  intros Hw. unfold current, backing_file, persist. simpl. by rewrite Hw.
Qed.

Lemma update_memory_unreadable memory_id content s p :
  self_project_id s = Some p -> backing_file (fs s) = Some Unparsable ->
  update_memory memory_id content s =
    (Raise (Mem (StorageError "Cannot read memories file")),
     add_log (read_events (fs s)) s).
Proof.
  intros Hp Hb. unfold update_memory.
  rewrite (bind_ok _ _ _ _ _ (_ensure_activated_some _ _ Hp)).
  unfold bind. by rewrite _read_memories_file_eq, Hb.
Qed.

Lemma delete_memory_unreadable memory_id s p :
  self_project_id s = Some p -> backing_file (fs s) = Some Unparsable ->
  delete_memory memory_id s =
    (Raise (Mem (StorageError "Cannot read memories file")),
     add_log (read_events (fs s)) s).
Proof.
  intros Hp Hb. unfold delete_memory.
  rewrite (bind_ok _ _ _ _ _ (_ensure_activated_some _ _ Hp)).
  unfold bind. by rewrite _read_memories_file_eq, Hb.
Qed.

(** A refused [store_memory] returns the state it was given. *)
Lemma store_memory_refused_state s title memory_type content :
  title = None \/ title = Some "" \/
  (forall t, memory_type = Some t -> t ∉ ALLOWED_MEMORY_TYPES) \/
  content = None ->
  (store_memory title memory_type content s).2 = s.
Proof.
  intros Hbad. unfold store_memory.
  destruct (self_project_id s) as [p|] eqn:Hp;
    [|by rewrite (bind_raise _ _ _ _ _ (_ensure_activated_none _ Hp))].
  rewrite (bind_ok _ _ _ _ _ (_ensure_activated_some _ _ Hp)).
  destruct title as [t|]; [|done].
  destruct (decide (t = "")) as [->|Ht]; [done|].
  rewrite (bind_ok _ _ _ _ _ (validate_required_field_ok _ _ _ Ht)).
  destruct memory_type as [k|]; [|done].
  destruct (decide (k ∈ ALLOWED_MEMORY_TYPES)) as [Hk|Hk];
    [|by rewrite (bind_raise _ _ _ _ _ (validate_memory_type_bad _ _ Hk))].
  rewrite (bind_ok _ _ _ _ _ (validate_memory_type_ok _ _ Hk)).
  destruct content as [c|]; [|done].
  destruct Hbad as [?|[[= ->]|[H|?]]]; try done. by destruct (H k).
Qed.

Lemma bind_ret_state {A B} (m : M A) (f : A -> B) s :
  (bind m (fun a => ret (f a)) s).2 = (m s).2.
Proof. unfold bind. by destruct (m s) as [[a|x] s']. Qed.

Lemma invoke_effect s c :
  collection_effect (uuid_str (uuid4_int (os_urandom s (draws s))))
    (c_memories (current s)) (c_memories (current (invoke c s).2)).
Proof.
  destruct (self_project_id s) as [p|] eqn:Hp;
    [|rewrite (invoke_unset _ _ Hp); apply ce_same].
  assert (Hlog : forall evs s0, fs s0 = fs s ->
            self_project_id s0 = self_project_id s ->
            collection_effect (uuid_str (uuid4_int (os_urandom s (draws s))))
              (c_memories (current s)) (c_memories (current (add_log evs s0)))).
  { intros evs s0 Hf Hq. rewrite (current_same s (add_log evs s0)) by done.
    apply ce_same. }
  destruct c as [title memory_type content|memory_id|memory_type
                |memory_id content|memory_id]; unfold invoke;
    rewrite bind_ret_state.
  - (* store_memory *)
    assert (Hbad : title = None \/ title = Some "" \/
              (forall t, memory_type = Some t -> t ∉ ALLOWED_MEMORY_TYPES) \/
              content = None ->
            collection_effect (uuid_str (uuid4_int (os_urandom s (draws s))))
              (c_memories (current s))
              (c_memories
                 (current (store_memory title memory_type content s).2))).
    { intros Hbad. rewrite (store_memory_refused_state s _ _ _ Hbad).
      apply ce_same. }
    destruct title as [t|]; [|apply Hbad; tauto].
    destruct (decide (t = "")) as [->|Ht]; [apply Hbad; tauto|].
    destruct memory_type as [k|]; [|apply Hbad; right; right; by left].
    destruct (decide (k ∈ ALLOWED_MEMORY_TYPES)) as [Hk|Hk];
      [|apply Hbad; right; right; left; by intros ? [= <-]].
    destruct content as [ct|]; [|apply Hbad; tauto].
    clear Hbad. rewrite (store_memory_eq _ _ ct _ _ Hp Ht Hk). cbv zeta.
    destruct (backing_file (fs s)) as [[|d]|] eqn:Hb;
      [by apply Hlog | |];
      (destruct (infinity_dir (fs s)) as [| |[] l] eqn:Hw; simpl;
       [rewrite add_log_add_log; by apply Hlog
       |rewrite add_log_add_log; by apply Hlog
       |erewrite current_persist by done; by apply ce_append
       |rewrite add_log_add_log; by apply Hlog]).
  - (* get_memory *)
    rewrite (get_memory_eq _ _ _ Hp).
    destruct (backing_file (fs s)) as [[|d]|] eqn:Hb; [by apply Hlog | |];
      rewrite get_loop_state; by apply Hlog.
  - (* list_memories *)
    rewrite (list_memories_eq _ _ _ Hp). by apply Hlog.
  - (* update_memory *)
    destruct (backing_file (fs s)) as [[|d]|] eqn:Hb;
      [rewrite (update_memory_unreadable _ _ _ _ Hp Hb); by apply Hlog| |];
      (assert (Hr : readable (fs s)) by (unfold readable; by rewrite Hb);
       destruct (decide (memory_id ∈ d_id <$> c_memories (current s)))
         as [Hin|Hn];
       [destruct (split_first_id _ _ Hin) as (l1 & m & l2 & Hc & Hn & Hm);
        rewrite (update_memory_first _ content _ _ _ _ _ Hp Hr Hc Hn Hm);
        cbv zeta;
        destruct (infinity_dir (fs s)) as [| |[] l] eqn:Hw; simpl;
        [by apply Hlog | by apply Hlog
        |erewrite current_persist by done; rewrite Hc; apply ce_update
        |by apply Hlog]
       |rewrite (update_memory_absent _ content _ _ Hp Hr Hn);
        by apply Hlog]).
  - (* delete_memory *)
    destruct (backing_file (fs s)) as [[|d]|] eqn:Hb;
      [rewrite (delete_memory_unreadable _ _ _ Hp Hb); by apply Hlog| |];
      (assert (Hr : readable (fs s)) by (unfold readable; by rewrite Hb);
       rewrite (delete_memory_eq _ _ _ Hp Hr); cbv zeta;
       case_decide; [by apply Hlog|];
       destruct (infinity_dir (fs s)) as [| |[] l] eqn:Hw; simpl;
       [by apply Hlog | by apply Hlog
       |erewrite current_persist by done; apply ce_delete
       |by apply Hlog]).
Qed.

Lemma collection_effect_kinds fresh_id l l' :
  collection_effect fresh_id l l' -> kinds_allowed l -> kinds_allowed l'.
Proof.
  unfold kinds_allowed. destruct 1 as [l|l m _ Hk|l1 m l2 ct now|l i].
  - done.
  - intros H. apply Forall_app. split; [done|]. by constructor.
  - rewrite !Forall_app, !Forall_cons. tauto.
  - intros H. rewrite Forall_forall in H. apply Forall_forall.
    intros m Hm. apply list_elem_of_filter in Hm as [_ Hm]. auto.
Qed.

Lemma collection_effect_unique fresh_id l l' :
  collection_effect fresh_id l l' ->
  fresh_id ∉ d_id <$> l -> unique_ids l -> unique_ids l'.
Proof.
  unfold unique_ids. destruct 1 as [l|l m Hi _|l1 m l2 ct now|l i].
  - done.
  - intros Hf Hu. rewrite fmap_app. apply NoDup_app. split_and!; [done| |].
    + intros x Hx Hx'. apply list_elem_of_singleton in Hx'. congruence.
    + apply NoDup_singleton.
  - by rewrite !fmap_app, !fmap_cons.
  - intros _ Hu. eapply sublist_NoDup; [exact Hu|].
    apply fmap_sublist, sublist_filter.
Qed.

(** A record operation keeps the kinds allowed, and keeps the ids unique
    when the UUID it may draw is new. *)
Lemma invoke_keeps_kinds s c :
  kinds_allowed (c_memories (current s)) ->
  kinds_allowed (c_memories (current (invoke c s).2)).
Proof. apply collection_effect_kinds with (1 := invoke_effect s c). Qed.

Lemma invoke_keeps_unique s c :
  uuid_str (uuid4_int (os_urandom s (draws s)))
    ∉ d_id <$> c_memories (current s) ->
  unique_ids (c_memories (current s)) ->
  unique_ids (c_memories (current (invoke c s).2)).
Proof. apply collection_effect_unique with (1 := invoke_effect s c). Qed.

(** Activation never changes the records of the collection. *)
Lemma activate_project_keeps_records s :
  c_memories (current (activate_project s).2) = c_memories (current s).
Proof.
  destruct s as [q [w [| |wr [i j t]]] lg r n c k].
  - by destruct w.
  - done.
  - by destruct i as [text|], j as [[|d]|], wr.
Qed.

Lemma step_keeps_kinds s st :
  kinds_allowed (c_memories (current s)) ->
  kinds_allowed (c_memories (current (do_step s st))).
Proof.
  destruct st as [c| |]; simpl.
  - apply invoke_keeps_kinds.
  - by rewrite activate_project_keeps_records.
  - unfold current. simpl. by destruct (backing_file (fs s)) as [[|d]|].
Qed.

(** Activation leaves a readable backing file readable. *)
Lemma activate_project_keeps_readable s :
  readable (fs s) -> readable (fs (activate_project s).2).
Proof.
  destruct s as [q [w [| |wr [i j t]]] lg r n c k].
  - by destruct w.
  - done.
  - by destruct i as [text|], j as [[|d]|], wr.
Qed.

Lemma step_keeps_readable s st :
  readable (fs s) -> readable (fs (do_step s st)).
Proof.
  destruct st as [c| |]; simpl.
  - apply (quiet_invoke c s).
  - apply activate_project_keeps_readable.
  - done.
Qed.

(** Whatever is done to a working directory that started without a
    backing file, the file stays readable and its records carry kinds of
    the enumeration. *)
Lemma run_keeps_invariants steps s :
  readable (fs s) -> kinds_allowed (c_memories (current s)) ->
  readable (fs (run steps s)) /\
  kinds_allowed (c_memories (current (run steps s))).
Proof.
  revert s. induction steps as [|st steps IH]; intros s Hr Hk; simpl; [done|].
  apply IH; [by apply step_keeps_readable | by apply step_keeps_kinds].
Qed.

Lemma new_store_invariants steps f random clock :
  backing_file f = None ->
  readable (fs (run steps (__init__ f random clock))) /\
  kinds_allowed (c_memories (current (run steps (__init__ f random clock)))).
Proof.
  intros Hb. apply run_keeps_invariants.
  - unfold readable. simpl. by rewrite Hb.
  - unfold current. simpl. rewrite Hb. constructor.
Qed.

(** ** The collection as a transition system *)

Lemma invoke_change_unset s c :
  self_project_id s = None ->
  collection_change s c (c_memories (current s))
    (c_memories (current (invoke c s).2)).
Proof. intros Hp. rewrite (invoke_unset _ _ Hp). apply cc_same. Qed.

(** Whatever the state, a record operation leaves the collection as it
    was, or changes it in the one way its kind of call allows. *)
Lemma invoke_change s c :
  collection_change s c (c_memories (current s))
    (c_memories (current (invoke c s).2)).
Proof.
  destruct (self_project_id s) as [p|] eqn:Hp;
    [|by apply invoke_change_unset].
  assert (Hlog : forall evs s0, fs s0 = fs s ->
            self_project_id s0 = self_project_id s ->
            collection_change s c
              (c_memories (current s)) (c_memories (current (add_log evs s0)))).
  { intros evs s0 Hf Hq. rewrite (current_same s (add_log evs s0)) by done.
    apply cc_same. }
  destruct c as [title memory_type content|memory_id|memory_type
                |memory_id content|memory_id]; unfold invoke;
    rewrite bind_ret_state.
  - assert (Hbad : title = None \/ title = Some "" \/
              (forall t, memory_type = Some t -> t ∉ ALLOWED_MEMORY_TYPES) \/
              content = None ->
            collection_change s (CallStore title memory_type content)
              (c_memories (current s))
              (c_memories
                 (current (store_memory title memory_type content s).2))).
    { intros Hbad. rewrite (store_memory_refused_state s _ _ _ Hbad).
      apply cc_same. }
    destruct title as [t|]; [|apply Hbad; tauto].
    destruct (decide (t = "")) as [->|Ht]; [apply Hbad; tauto|].
    destruct memory_type as [k|]; [|apply Hbad; right; right; by left].
    destruct (decide (k ∈ ALLOWED_MEMORY_TYPES)) as [Hk|Hk];
      [|apply Hbad; right; right; left; by intros ? [= <-]].
    destruct content as [ct|]; [|apply Hbad; tauto].
    clear Hbad. rewrite (store_memory_eq _ _ ct _ _ Hp Ht Hk). cbv zeta.
    destruct (backing_file (fs s)) as [[|d]|] eqn:Hb;
      [by apply Hlog | |];
      (destruct (infinity_dir (fs s)) as [| |[] l] eqn:Hw; simpl;
       [rewrite add_log_add_log; by apply Hlog
       |rewrite add_log_add_log; by apply Hlog
       |erewrite current_persist by done; by apply cc_append
       |rewrite add_log_add_log; by apply Hlog]).
  - rewrite (get_memory_eq _ _ _ Hp).
    destruct (backing_file (fs s)) as [[|d]|] eqn:Hb; [by apply Hlog | |];
      rewrite get_loop_state; by apply Hlog.
  - rewrite (list_memories_eq _ _ _ Hp). by apply Hlog.
  - destruct (backing_file (fs s)) as [[|d]|] eqn:Hb;
      [rewrite (update_memory_unreadable _ _ _ _ Hp Hb); by apply Hlog| |];
      (assert (Hr : readable (fs s)) by (unfold readable; by rewrite Hb);
       destruct (decide (memory_id ∈ d_id <$> c_memories (current s)))
         as [Hin|Hn];
       [destruct (split_first_id _ _ Hin) as (l1 & m & l2 & Hc & Hn & Hm);
        rewrite (update_memory_first _ content _ _ _ _ _ Hp Hr Hc Hn Hm);
        cbv zeta;
        destruct (infinity_dir (fs s)) as [| |[] l] eqn:Hw; simpl;
        [by apply Hlog | by apply Hlog
        |erewrite current_persist by done; rewrite Hc; subst memory_id;
         by apply cc_update
        |by apply Hlog]
       |rewrite (update_memory_absent _ content _ _ Hp Hr Hn);
        by apply Hlog]).
  - destruct (backing_file (fs s)) as [[|d]|] eqn:Hb;
      [rewrite (delete_memory_unreadable _ _ _ Hp Hb); by apply Hlog| |];
      (assert (Hr : readable (fs s)) by (unfold readable; by rewrite Hb);
       rewrite (delete_memory_eq _ _ _ Hp Hr); cbv zeta;
       case_decide as Hlen; [by apply Hlog|];
       destruct (infinity_dir (fs s)) as [| |[] l] eqn:Hw; simpl;
       [by apply Hlog | by apply Hlog
       |erewrite current_persist by done; apply cc_delete;
        destruct (decide (memory_id ∈ d_id <$> c_memories (current s)))
          as [|Hn]; [done|];
        by rewrite (filter_other_ids _ _ Hn) in Hlen
       |by apply Hlog]).
Qed.

Lemma change_well_formed s c l l' :
  collection_change s c l l' -> Forall well_formed l -> Forall well_formed l'.
Proof.
  destruct 1 as [c l|l t k ct Ht Hk|l1 m l2 ct Hn|l i Hin].
  - done.
  - intros H. apply Forall_app. split; [done|]. by repeat constructor.
  - rewrite !Forall_app, !Forall_cons. unfold well_formed. simpl. tauto.
  - intros H. rewrite Forall_forall in H. apply Forall_forall.
    intros m Hm. apply list_elem_of_filter in Hm as [_ Hm]. auto.
Qed.

Lemma step_well_formed s st :
  Forall well_formed (c_memories (current s)) ->
  Forall well_formed (c_memories (current (do_step s st))).
Proof.
  destruct st as [c| |]; simpl.
  - apply change_well_formed with (1 := invoke_change s c).
  - by rewrite activate_project_keeps_records.
  - unfold current. simpl. by destruct (backing_file (fs s)) as [[|d]|].
Qed.

(** X14.  If every record of the collection has a non-empty title and a
    kind of the enumeration, this is still so after any sequence of record
    operations, activations and new store objects; in particular it holds
    of every store that started without a backing file. *)
Theorem run_well_formed steps s :
  Forall well_formed (c_memories (current s)) ->
  Forall well_formed (c_memories (current (run steps s))).
Proof.
  revert s. induction steps as [|st steps IH]; intros s H; simpl; [done|].
  by apply IH, step_well_formed.
Qed.

Lemma run_well_formed_witness :
  Forall well_formed
    (c_memories
       (current
          (run [Activate;
                Record_ (CallStore (Some "T1") (Some "design_doc") (Some "c1"));
                Record_ (CallStore (Some "") (Some "design_doc") (Some "c"));
                Record_ (CallStore (Some "T3") (Some "rules") (Some "c"));
                Record_ (CallUpdate demo_id1 "c1-new")]
             demo_new))).
Proof.
  apply (run_well_formed _ demo_new). vm_compute. constructor.
Defined.

(** X15.  A record found in the collection after a record operation is
    either the one a successful [store_memory] just built, or has the id,
    title, kind and creation time of a record that was there before: no
    operation changes these four fields. *)
Theorem invoke_keeps_origin s c m' :
  m' ∈ c_memories (current (invoke c s).2) ->
  (exists m, m ∈ c_memories (current s) /\ same_origin m m') \/
  (exists title memory_type content,
     c = CallStore (Some title) (Some memory_type) (Some content) /\
     m' = to_dict (new_memory title memory_type content s)).
Proof.
  assert (Hrefl : forall m, same_origin m m) by (by intros m).
  destruct (invoke_change s c) as [c l|l t k ct Ht Hk|l1 m l2 ct Hn|l i Hin].
  - intros Hm. left. eauto.
  - intros Hm. apply elem_of_app in Hm as [Hm|Hm].
    + left. eauto.
    + apply list_elem_of_singleton in Hm. right. eauto.
  - intros Hm. left. apply elem_of_app in Hm as [Hm|Hm].
    + exists m'. split; [|done]. apply elem_of_app. by left.
    + apply elem_of_cons in Hm as [->|Hm].
      * exists m. split; [|done]. apply elem_of_app. right. left.
      * exists m'. split; [|done]. apply elem_of_app. right. by right.
  - intros Hm. left. apply list_elem_of_filter in Hm as [_ Hm]. eauto.
Qed.

Lemma invoke_keeps_origin_witness :
  (exists m, m ∈ c_memories (current demo_two) /\
             same_origin m
               (updated "c1-new" (utc_now demo_two (ticks demo_two))
                  (to_dict (new_memory "T1" "design_doc" "c1" demo_active)))) \/
  (exists title memory_type content,
     CallUpdate demo_id1 "c1-new"
       = CallStore (Some title) (Some memory_type) (Some content) /\
     updated "c1-new" (utc_now demo_two (ticks demo_two))
       (to_dict (new_memory "T1" "design_doc" "c1" demo_active))
       = to_dict (new_memory title memory_type content demo_two)).
Proof.
  apply (invoke_keeps_origin demo_two (CallUpdate demo_id1 "c1-new")).
  vm_compute. constructor.
Defined.

(** ** Activation, case by case *)

(** X1.  In a working directory that can be written and has no
    [.infinity], [activate_project] succeeds with the UUID it draws: it
    creates the directory, writes the UUID as the identity file and an
    empty collection tagged with it as the backing file, leaves no
    temporary file, and [list_memories] then returns the empty list. *)
Theorem activate_project_fresh s :
  infinity_dir (fs s) = Absent -> working_dir_writable (fs s) = true ->
  exists s1 s2,
    activate_project s
      = (Ok (Some (uuid_str (uuid4_int (os_urandom s (draws s))))), s1) /\
    self_project_id s1
      = Some (uuid_str (uuid4_int (os_urandom s (draws s)))) /\
    infinity_dir (fs s1)
      = Directory true
          {| project_id_file :=
               Some (uuid_str (uuid4_int (os_urandom s (draws s))));
             memories_json :=
               Some (Document
                       {| c_project_id :=
                            Some (uuid_str
                                    (uuid4_int (os_urandom s (draws s))));
                          c_memories := [] |});
             memories_tmp := None |} /\
    list_memories None s1 = (Ok [], s2).
Proof.
  destruct s as [q [w nd] lg r n c k]. simpl. intros -> ->.
  eexists _, _. split_and!.
  - cbv -[app uuid_str uuid4_int]. reflexivity.
  - reflexivity.
  - reflexivity.
  - erewrite list_memories_eq by reflexivity. reflexivity.
Qed.

Lemma activate_project_fresh_witness :
  exists s1 s2,
    activate_project demo_new
      = (Ok (Some (uuid_str
                     (uuid4_int (os_urandom demo_new (draws demo_new))))),
         s1) /\
    self_project_id s1
      = Some (uuid_str (uuid4_int (os_urandom demo_new (draws demo_new)))) /\
    infinity_dir (fs s1)
      = Directory true
          {| project_id_file :=
               Some (uuid_str
                       (uuid4_int (os_urandom demo_new (draws demo_new))));
             memories_json :=
               Some (Document
                       {| c_project_id :=
                            Some (uuid_str
                                    (uuid4_int
                                       (os_urandom demo_new (draws demo_new))));
                          c_memories := [] |});
             memories_tmp := None |} /\
    list_memories None s1 = (Ok [], s2).
Proof.
  apply (activate_project_fresh demo_new); reflexivity.
Defined.

(** X2.  When [.infinity] is missing and cannot be created,
    [activate_project] raises [StorageError] after the existence test and
    the [mkdir] attempt: the file system and the in-memory project id are
    what they were and no UUID is drawn, so a store that was not activated
    still refuses every record operation. *)
Theorem activate_project_no_directory s :
  infinity_dir (fs s) = Absent -> working_dir_writable (fs s) = false ->
  activate_project s
    = (Raise (Mem (StorageError "Cannot create project directory")),
       add_log [EvExists infinity_dir_path; EvMkdir infinity_dir_path] s) /\
  (self_project_id s = None ->
   forall c,
     (invoke c (activate_project s).2).1
       = Raise (Mem ProjectNotActivatedError)).
Proof.
  intros Ha Hw.
  assert (E : activate_project s
    = (Raise (Mem (StorageError "Cannot create project directory")),
       add_log [EvExists infinity_dir_path; EvMkdir infinity_dir_path] s)).
  { destruct s as [q [w nd] lg r n c k]. simpl in *. subst.
    cbv -[app]. by rewrite <- app_assoc. }
  split; [done|]. intros Hp c. rewrite E. simpl.
  by rewrite invoke_unset.
Qed.

Lemma activate_project_no_directory_witness :
  let s := __init__ {| working_dir_writable := false; infinity_dir := Absent |}
             demo_random demo_clock in
  activate_project s
    = (Raise (Mem (StorageError "Cannot create project directory")),
       add_log [EvExists infinity_dir_path; EvMkdir infinity_dir_path] s) /\
  (self_project_id s = None ->
   forall c,
     (invoke c (activate_project s).2).1
       = Raise (Mem ProjectNotActivatedError)).
Proof.
  apply (activate_project_no_directory
           (__init__ {| working_dir_writable := false; infinity_dir := Absent |}
              demo_random demo_clock)); reflexivity.
Defined.

(** X3.  When [.infinity] exists but an identity file cannot be written
    in it (it is not a directory, or a read-only directory without identity
    file), [activate_project] raises [StorageError] and changes no file,
    but the object keeps the UUID it drew as its project id. *)
Theorem activate_project_unwritable s :
  infinity_dir (fs s) = RegularFile \/
  (exists l, infinity_dir (fs s) = Directory false l /\
             project_id_file l = None) ->
  exists s1,
    activate_project s
      = (Raise (Mem (StorageError "Cannot create project directory")), s1) /\
    fs s1 = fs s /\
    self_project_id s1
      = Some (uuid_str (uuid4_int (os_urandom s (draws s)))).
Proof.
  destruct s as [q [w nd] lg r n c k]. simpl.
  intros [->|([i j t] & -> & Hi)]; [|simpl in Hi; subst i];
    eexists; (split_and!; [cbv -[app uuid_str uuid4_int]; reflexivity|done..]).
Qed.

Lemma activate_project_unwritable_witness :
  exists s1,
    activate_project (__init__ readonly_dir demo_random demo_clock)
      = (Raise (Mem (StorageError "Cannot create project directory")), s1) /\
    fs s1 = fs (__init__ readonly_dir demo_random demo_clock) /\
    self_project_id s1
      = Some (uuid_str (uuid4_int (demo_random 0))).
Proof.
  apply (activate_project_unwritable
           (__init__ readonly_dir demo_random demo_clock)).
  right. eexists. split; reflexivity.
Defined.

(** X4.  In a writable [.infinity] that holds an identity file but no
    backing file, [activate_project] returns the stripped text of the
    identity file, leaves that file as it is, draws no UUID, and creates
    the backing file as an empty collection tagged with the returned id. *)
Theorem activate_project_restores_collection s l text :
  infinity_dir (fs s) = Directory true l ->
  project_id_file l = Some text -> memories_json l = None ->
  exists s1 evs,
    activate_project s = (Ok (Some (strip text)), s1) /\
    identity (fs s1) = Some text /\
    backing_file (fs s1)
      = Some (Document {| c_project_id := Some (strip text);
                          c_memories := [] |}) /\
    temp_file (fs s1) = None /\
    draws s1 = draws s /\
    fs_log s1 = fs_log s ++ evs /\
    EvWriteText project_id_path ∉ evs.
Proof.
  destruct s as [q [w nd] lg r n c k], l as [i j t]. simpl.
  intros -> -> ->. eexists _, _. split_and!.
  - cbv -[app strip]. rewrite <- !app_assoc. reflexivity.
  - reflexivity.
  - reflexivity.
  - reflexivity.
  - reflexivity.
  - reflexivity.
  - not_in_events.
Qed.

Lemma activate_project_restores_collection_witness :
  exists s1 evs,
    activate_project demo_lost
      = (Ok (Some (strip "00000000-0330-47f0-9403-f94edb1812b1")), s1) /\
    identity (fs s1) = Some "00000000-0330-47f0-9403-f94edb1812b1" /\
    backing_file (fs s1)
      = Some (Document
                {| c_project_id :=
                     Some (strip "00000000-0330-47f0-9403-f94edb1812b1");
                   c_memories := [] |}) /\
    temp_file (fs s1) = None /\
    draws s1 = draws demo_lost /\
    fs_log s1 = fs_log demo_lost ++ evs /\
    EvWriteText project_id_path ∉ evs.
Proof.
  eapply (activate_project_restores_collection demo_lost); reflexivity.
Defined.

(** ** Writing the backing file *)


(** ** Which exceptions leave the storage layer *)

Lemma raises_within_weaken {A} (P Q : MemoryError -> Prop) (m : M A) :
  raises_within P m -> (forall e, P e -> Q e) -> raises_within Q m.
Proof.
  intros Hm HPQ s. specialize (Hm s).
  destruct (m s).1 as [a|[| |e]]; auto.
Qed.

Lemma raises_within_ret {A} P (a : A) : raises_within P (ret a).
Proof. by intros s. Qed.

Lemma raises_within_bind {A B} P (m : M A) (k : A -> M B) :
  raises_within P m -> (forall a, raises_within P (k a)) ->
  raises_within P (bind m k).
Proof.
  intros Hm Hk s. unfold bind. specialize (Hm s).
  destruct (m s) as [[a|x] s']; simpl in *; [apply Hk | done].
Qed.

Lemma raises_ensure_activated :
  raises_within (fun e => e = ProjectNotActivatedError) _ensure_activated.
Proof.
  intros s. unfold _ensure_activated, bind, get_project_id.
  by destruct (self_project_id s).
Qed.

Lemma raises_validate_required_field v f :
  raises_within (fun e => e = MissingRequiredFieldError f)
    (validate_required_field v f).
Proof.
  intros s. unfold validate_required_field.
  destruct v; [case_decide|]; done.
Qed.

Lemma raises_validate_memory_type t :
  raises_within (fun e => e = InvalidMemoryTypeError t)
    (validate_memory_type t).
Proof.
  intros s. unfold validate_memory_type.
  destruct t; [case_decide|]; done.
Qed.

Lemma raises_read :
  raises_within (fun e => e = StorageError "Cannot read memories file")
    _read_memories_file.
Proof.
  intros s. rewrite _read_memories_file_eq. simpl.
  by destruct (backing_file (fs s)) as [[|?]|].
Qed.

Lemma raises_write data :
  raises_within (fun e => e = StorageError "Cannot write memories file")
    (_write_memories_file data).
Proof.
  intros s. rewrite _write_memories_file_eq.
  by destruct (infinity_dir (fs s)) as [| |[] ?].
Qed.

Lemma raises_get_loop memories memory_id :
  raises_within (fun e => e = MemoryNotFoundError memory_id)
    (get_loop memories memory_id).
Proof.
  intros s. induction memories as [|m l IH]; simpl; [done|].
  by case_decide.
Qed.

Lemma raises_update_loop P memories memory_id content :
  raises_within P (update_loop memories memory_id content).
Proof.
  induction memories as [|m l IH]; simpl; [done|]. case_decide.
  - apply raises_within_bind; [done|]. intros; apply raises_within_ret.
  - apply raises_within_bind; [done|]. intros; apply raises_within_ret.
Qed.

Ltac raises_leaf lem :=
  eapply raises_within_weaken; [apply lem|];
  let e := fresh in intros e ->; simpl; auto.

Ltac raises_steps :=
  repeat first
    [ apply raises_within_bind; [|intros]
    | apply raises_within_ret
    | apply raises_update_loop
    | raises_leaf raises_ensure_activated
    | raises_leaf raises_validate_required_field
    | raises_leaf raises_validate_memory_type
    | raises_leaf raises_read
    | raises_leaf raises_write
    | raises_leaf raises_get_loop
    | match goal with
      | |- raises_within _ (match ?x with _ => _ end) => destruct x
      end ].

Lemma invoke_raises c : raises_within (may_raise c) (invoke c).
Proof.
  destruct c; unfold invoke, store_memory, get_memory, list_memories,
    update_memory, delete_memory; raises_steps.
  all: try (apply raises_within_weaken with (P := fun _ => False);
            [by intros s|done]).
  all: intros s; simpl; auto.
Qed.

Lemma activate_project_raises s :
  match (activate_project s).1 with
  | Ok _ => True
  | Raise (Mem (StorageError message)) =>
      message = "Cannot create project directory" \/
      message = "Cannot write memories file"
  | Raise _ => False
  end.
Proof.
  destruct s as [q [w [| |wr [i j t]]] lg r n c k].
  - destruct w; cbv; auto.
  - cbv; auto.
  - destruct i, j, wr; cbv; auto.
Qed.


(** ** What the operations leave alone *)

Lemma add_log_empty s : add_log [] s = s.
Proof. destruct s; unfold add_log; simpl. by rewrite app_nil_r. Qed.

Lemma preserves_pure {X A} (f : state -> X) (m : M A) :
  (forall s, (m s).2 = s) -> preserves f m.
Proof. intros H s. by rewrite H. Qed.

Lemma preserves_bind {X A B} (f : state -> X) (m : M A) (k : A -> M B) :
  preserves f m -> (forall a, preserves f (k a)) -> preserves f (bind m k).
Proof.
  intros Hm Hk s. unfold bind. specialize (Hm s).
  destruct (m s) as [[a|x] s']; simpl in *; [|done].
  by rewrite Hk.
Qed.

Lemma preserves_id_ensure_activated {X} (f : state -> X) :
  preserves f _ensure_activated.
Proof.
  apply preserves_pure. intros s.
  unfold _ensure_activated, bind, get_project_id.
  by destruct (self_project_id s).
Qed.

Lemma preserves_validate_required_field {X} (f : state -> X) v n :
  preserves f (validate_required_field v n).
Proof.
  apply preserves_pure. intros s. unfold validate_required_field.
  destruct v; [case_decide|]; done.
Qed.

Lemma preserves_validate_memory_type {X} (f : state -> X) t :
  preserves f (validate_memory_type t).
Proof.
  apply preserves_pure. intros s. unfold validate_memory_type.
  destruct t; [case_decide|]; done.
Qed.

Lemma preserves_get_loop {X} (f : state -> X) memories memory_id :
  preserves f (get_loop memories memory_id).
Proof. apply preserves_pure. intros s. apply get_loop_state. Qed.

Lemma preserves_id_read : preserves self_project_id _read_memories_file.
Proof. intros s. by rewrite _read_memories_file_eq. Qed.

Lemma preserves_id_write data :
  preserves self_project_id (_write_memories_file data).
Proof.
  intros s. rewrite _write_memories_file_eq.
  by destruct (infinity_dir (fs s)) as [| |[] ?].
Qed.

Lemma preserves_id_update_loop memories memory_id content :
  preserves self_project_id (update_loop memories memory_id content).
Proof.
  induction memories as [|m l IH]; simpl; [done|]. case_decide.
  - by intros s.
  - apply preserves_bind; [done|]. by intros a s.
Qed.

Ltac preserves_id_steps :=
  repeat first
    [ apply preserves_bind; [|intros]
    | apply preserves_id_ensure_activated
    | apply preserves_validate_required_field
    | apply preserves_validate_memory_type
    | apply preserves_get_loop
    | apply preserves_id_read
    | apply preserves_id_write
    | apply preserves_id_update_loop
    | match goal with
      | |- preserves _ (match ?x with _ => _ end) => destruct x
      | |- preserves _ _ => by intros ?
      end ].

(** No record operation changes the project id of the store object. *)
Lemma invoke_keeps_project_id c s :
  self_project_id (invoke c s).2 = self_project_id s.
Proof.
  revert s. change (preserves self_project_id (invoke c)).
  destruct c; unfold invoke, store_memory, get_memory, list_memories,
    update_memory, delete_memory; preserves_id_steps.
Qed.

(** An activation never unsets the project id. *)
Lemma activate_project_stays_activated s :
  is_Some (self_project_id s) ->
  is_Some (self_project_id (activate_project s).2).
Proof.
  intros [p Hp].
  destruct s as [q [w [| |wr [i j t]]] lg r n c k]; simpl in Hp; subst q.
  - by destruct w.
  - done.
  - by destruct i, j, wr.
Qed.

(** X9.  [get_memory] and [list_memories] change nothing but the access
    log, in any state and whatever they return: files, project id,
    entropy and clock are as before, and the events added are at most the
    existence test and the read of the backing file. *)
Theorem lookups_only_read s :
  (forall memory_id, exists evs,
     (get_memory memory_id s).2 = add_log evs s /\
     evs `prefix_of` [EvExists memories_path; EvOpenRead memories_path]) /\
  (forall memory_type, exists evs,
     (list_memories memory_type s).2 = add_log evs s /\
     evs `prefix_of` [EvExists memories_path; EvOpenRead memories_path]).
Proof.
  assert (Hev : forall evs, evs = [] \/ evs = read_events (fs s) ->
            evs `prefix_of` [EvExists memories_path; EvOpenRead memories_path]).
  { intros evs [-> | ->]; [apply prefix_nil|]. unfold read_events.
    case_match; [done|]. by exists [EvOpenRead memories_path]. }
  destruct (self_project_id s) as [p|] eqn:Hp; split.
  - intros memory_id. exists (read_events (fs s)). split; [|auto].
    rewrite (get_memory_eq _ _ _ Hp).
    destruct (backing_file (fs s)) as [[|?]|]; [done| |];
      apply get_loop_state.
  - intros memory_type. exists (read_events (fs s)). split; [|auto].
    by rewrite (list_memories_eq _ _ _ Hp).
  - intros memory_id. exists []. split; [|auto]. unfold get_memory.
    rewrite (bind_raise _ _ _ _ _ (_ensure_activated_none _ Hp)).
    by rewrite add_log_empty.
  - intros memory_type. exists []. split; [|auto]. unfold list_memories.
    rewrite (bind_raise _ _ _ _ _ (_ensure_activated_none _ Hp)).
    by rewrite add_log_empty.
Qed.

(** ** Storage failures *)






(** ** How the operations compose *)

Lemma store_memory_success s p title memory_type content :
  self_project_id s = Some p ->
  writable_dir (fs s) -> readable (fs s) ->
  title ≠ "" -> memory_type ∈ ALLOWED_MEMORY_TYPES ->
  exists s1,
    store_memory (Some title) (Some memory_type) (Some content) s
      = (Ok (m_id (new_memory title memory_type content s)), s1) /\
    self_project_id s1 = Some p /\
    backing_file (fs s1)
      = Some (Document
                (appended (new_memory title memory_type content s)
                   (current s))).
Proof.
  intros Hp [l Hw] Hr Ht Hk.
  rewrite (store_memory_eq _ _ content _ _ Hp Ht Hk), Hw. cbv zeta.
  unfold readable in Hr. eexists.
  destruct (backing_file (fs s)) as [[|?]|] eqn:Hb; [done| |];
    (split_and!; [done | done |]; simpl;
     unfold persist, backing_file; by rewrite Hw).
Qed.

Lemma update_memory_success s p memory_id content l1 m l2 :
  self_project_id s = Some p -> readable (fs s) -> writable_dir (fs s) ->
  c_memories (current s) = l1 ++ m :: l2 ->
  memory_id ∉ d_id <$> l1 -> d_id m = memory_id ->
  exists s1,
    update_memory memory_id content s = (Ok tt, s1) /\
    self_project_id s1 = Some p /\
    backing_file (fs s1)
      = Some (Document
                {| c_project_id := c_project_id (current s);
                   c_memories :=
                     l1 ++ updated content (utc_now s (ticks s)) m :: l2 |}).
Proof.
  intros Hp Hr [l Hw] Hc Hn Hm.
  rewrite (update_memory_first _ content _ _ _ _ _ Hp Hr Hc Hn Hm), Hw.
  eexists. split_and!; [done | done |]. simpl.
  unfold persist, backing_file. by rewrite Hw.
Qed.

Lemma current_of_document s data :
  backing_file (fs s) = Some (Document data) -> current s = data.
Proof. unfold current. by intros ->. Qed.

(** X10.  A successful [store_memory] puts the new record at the end:
    [list_memories] without filter returns afterwards what it returned
    before, followed by the entry with the returned id, the title and the
    kind. *)
Theorem store_then_list s p title memory_type content :
  self_project_id s = Some p ->
  writable_dir (fs s) -> readable (fs s) ->
  title ≠ "" -> memory_type ∈ ALLOWED_MEMORY_TYPES ->
  exists before memory_id s0 s1 s2,
    list_memories None s = (Ok before, s0) /\
    store_memory (Some title) (Some memory_type) (Some content) s
      = (Ok memory_id, s1) /\
    list_memories None s1
      = (Ok (before ++ [ {| md_id := memory_id; md_title := title;
                            md_type := memory_type |} ]), s2).
Proof.
  intros Hp Hw Hr Ht Hk.
  destruct (store_memory_success _ _ _ _ content Hp Hw Hr Ht Hk)
    as (s1 & Hs & Hp1 & Hb1).
  eexists _, _, _, s1, _. split_and!; [|exact Hs|].
  - rewrite (list_memories_eq _ _ _ Hp). unfold readable in Hr.
    by destruct (backing_file (fs s)) as [[|?]|].
  - rewrite (list_memories_eq _ _ _ Hp1), Hb1.
    rewrite (current_of_document _ _ Hb1). simpl.
    by rewrite fmap_app.
Qed.

Lemma store_then_list_witness :
  exists before memory_id s0 s1 s2,
    list_memories None demo_one = (Ok before, s0) /\
    store_memory (Some "T2") (Some "test_plan") (Some "c2") demo_one
      = (Ok memory_id, s1) /\
    list_memories None s1
      = (Ok (before ++ [ {| md_id := memory_id; md_title := "T2";
                            md_type := "test_plan" |} ]), s2).
Proof.
  apply (store_then_list demo_one "00000000-0330-47f0-9403-f94edb1812b1").
  - reflexivity.
  - eexists. vm_compute. reflexivity.
  - vm_compute. discriminate.
  - discriminate.
  - apply (bool_decide_unpack _). vm_compute. exact I.
Defined.

(** X11.  After a successful [update_memory], [get_memory] of the id
    returns the record it returned before with the new content and with
    [updated_at] set to the clock reading of the update, the other four
    fields unchanged; this holds also when several records carry the id,
    both operations working on the first. *)
Theorem update_then_get s p memory_id content :
  self_project_id s = Some p -> readable (fs s) -> writable_dir (fs s) ->
  memory_id ∈ d_id <$> c_memories (current s) ->
  exists before s0 s1 s2,
    get_memory memory_id s = (Ok before, s0) /\
    update_memory memory_id content s = (Ok tt, s1) /\
    get_memory memory_id s1
      = (Ok {| m_id := m_id before; m_title := m_title before;
               m_type := m_type before; m_content := content;
               m_created_at := m_created_at before;
               m_updated_at := Some (utc_now s (ticks s)) |}, s2).
Proof.
  intros Hp Hr Hw Hin.
  destruct (split_first_id _ _ Hin) as (l1 & m & l2 & Hc & Hn & Hm).
  destruct (update_memory_success _ _ _ content _ _ _ Hp Hr Hw Hc Hn Hm)
    as (s1 & Hu & Hp1 & Hb1).
  exists (from_dict m). eexists _, s1, _. split_and!; [|exact Hu|].
  - rewrite (get_memory_eq _ _ _ Hp), Hc. unfold readable in Hr.
    destruct (backing_file (fs s)) as [[|?]|]; [done| |];
      by rewrite (get_loop_first _ _ _ _ _ Hn Hm).
  - rewrite (get_memory_eq _ _ _ Hp1), Hb1.
    rewrite (current_of_document _ _ Hb1). simpl.
    by rewrite (get_loop_first _ (updated content _ m) _ _ _ Hn Hm).
Qed.

Lemma update_then_get_witness :
  exists before s0 s1 s2,
    get_memory demo_id1 demo_two = (Ok before, s0) /\
    update_memory demo_id1 "c1-new" demo_two = (Ok tt, s1) /\
    get_memory demo_id1 s1
      = (Ok {| m_id := m_id before; m_title := m_title before;
               m_type := m_type before; m_content := "c1-new";
               m_created_at := m_created_at before;
               m_updated_at := Some (utc_now demo_two (ticks demo_two)) |},
         s2).
Proof.
  apply (update_then_get demo_two "00000000-0330-47f0-9403-f94edb1812b1").
  - reflexivity.
  - vm_compute. discriminate.
  - eexists. vm_compute. reflexivity.
  - apply (bool_decide_unpack _). vm_compute. exact I.
Defined.

Lemma get_loop_result (memories : list mem_dict) memory_id s s0 :
  (get_loop memories memory_id s).1 = (get_loop memories memory_id s0).1.
Proof.
  induction memories as [|m l IH]; simpl; [done|]. by case_decide.
Qed.

Lemma get_loop_app (l l' : list mem_dict) memory_id s :
  memory_id ∈ d_id <$> l ->
  get_loop (l ++ l') memory_id s = get_loop l memory_id s.
Proof.
  intros Hin.
  destruct (split_first_id _ _ Hin) as (l1 & m & l2 & -> & Hn & Hm).
  rewrite <- app_assoc. simpl.
  by rewrite !(get_loop_first _ _ _ _ _ Hn Hm).
Qed.

Lemma get_loop_updated (l1 : list mem_dict) m l2 content now memory_id s :
  d_id m ≠ memory_id ->
  get_loop (l1 ++ updated content now m :: l2) memory_id s
    = get_loop (l1 ++ m :: l2) memory_id s.
Proof.
  intros Hne. induction l1 as [|x l IH]; simpl.
  - by rewrite !decide_False.
  - by case_decide.
Qed.

Lemma get_loop_filter (l : list mem_dict) i memory_id s :
  i ≠ memory_id ->
  get_loop (filter (fun m => d_id m ≠ i) l) memory_id s
    = get_loop l memory_id s.
Proof.
  intros Hne. induction l as [|x l IH]; [done|].
  rewrite filter_cons. destruct (decide (d_id x ≠ i)) as [E|E]; simpl.
  - by case_decide.
  - apply dec_stable in E. rewrite decide_False by congruence. done.
Qed.

Lemma change_get_loop s c l l' memory_id s0 :
  collection_change s c l l' ->
  match c with
  | CallUpdate i _ | CallDelete i => i ≠ memory_id
  | CallStore _ _ _ =>
      uuid_str (uuid4_int (os_urandom s (draws s))) ≠ memory_id \/
      memory_id ∈ d_id <$> l
  | _ => True
  end ->
  (get_loop l' memory_id s0).1 = (get_loop l memory_id s0).1.
Proof.
  destruct 1 as [c l|l t k ct Ht Hk|l1 m l2 ct Hn|l i Hin]; intros Hc.
  - done.
  - destruct (decide (memory_id ∈ d_id <$> l)) as [Hin|Hn].
    + by rewrite get_loop_app.
    + destruct Hc as [Hc|Hc]; [|done].
      rewrite !get_loop_absent; [done | done |].
      rewrite fmap_app. intros H. apply elem_of_app in H as [H|H]; [done|].
      apply list_elem_of_singleton in H. simpl in H. congruence.
  - by rewrite get_loop_updated.
  - by rewrite get_loop_filter.
Qed.

Lemma invoke_unparsable_fs s c :
  backing_file (fs s) = Some Unparsable -> fs (invoke c s).2 = fs s.
Proof.
  intros Hb. destruct (self_project_id s) as [p|] eqn:Hp;
    [|by rewrite (invoke_unset _ _ Hp)].
  destruct c as [title memory_type content|memory_id|memory_type
                |memory_id content|memory_id]; unfold invoke;
    rewrite bind_ret_state.
  - destruct title as [t|];
      [|rewrite store_memory_refused_state; [done | tauto]].
    destruct (decide (t = "")) as [->|Ht];
      [rewrite store_memory_refused_state; [done | tauto]|].
    destruct memory_type as [k|];
      [|rewrite store_memory_refused_state; [done|right; right; by left]].
    destruct (decide (k ∈ ALLOWED_MEMORY_TYPES)) as [Hk|Hk];
      [|rewrite store_memory_refused_state;
        [done|right; right; left; by intros ? [= <-]]].
    destruct content as [ct|];
      [|rewrite store_memory_refused_state; [done | tauto]].
    by rewrite (store_memory_eq _ _ ct _ _ Hp Ht Hk), Hb.
  - by rewrite (get_memory_eq _ _ _ Hp), Hb.
  - by rewrite (list_memories_eq _ _ _ Hp).
  - by rewrite (update_memory_unreadable _ _ _ _ Hp Hb).
  - by rewrite (delete_memory_unreadable _ _ _ Hp Hb).
Qed.

Lemma get_memory_result memory_id s :
  (get_memory memory_id s).1 =
    match self_project_id s with
    | None => Raise (Mem ProjectNotActivatedError)
    | Some _ =>
        match backing_file (fs s) with
        | Some Unparsable =>
            Raise (Mem (StorageError "Cannot read memories file"))
        | _ => (get_loop (c_memories (current s)) memory_id s).1
        end
    end.
Proof.
  destruct (self_project_id s) as [p|] eqn:Hp.
  - rewrite (get_memory_eq _ _ _ Hp).
    destruct (backing_file (fs s)) as [[|?]|]; [done| |];
      apply get_loop_result.
  - unfold get_memory.
    by rewrite (bind_raise _ _ _ _ _ (_ensure_activated_none _ Hp)).
Qed.

(** X12.  What [get_memory] returns for an id is not changed by a record
    operation on another id: not by [update_memory] or [delete_memory] of
    a different id, not by [get_memory] or [list_memories], and not by
    [store_memory] unless the UUID it draws is that id and no record
    carried it yet.  This holds in every state, errors included. *)
Theorem get_memory_frame s c memory_id :
  leaves_alone s c memory_id ->
  (get_memory memory_id (invoke c s).2).1 = (get_memory memory_id s).1.
Proof.
  intros Hc. rewrite !get_memory_result, invoke_keeps_project_id.
  destruct (self_project_id s) as [p|]; [|done].
  destruct (backing_file (fs s)) as [[|d]|] eqn:Hb.
  - by rewrite (invoke_unparsable_fs _ _ Hb), Hb.
  - assert (Hr : readable (fs (invoke c s).2)).
    { apply (quiet_invoke c s). unfold readable. by rewrite Hb. }
    unfold readable in Hr.
    rewrite (get_loop_result _ _ (invoke c s).2 s).
    rewrite (change_get_loop s c _ _ memory_id s (invoke_change s c) Hc).
    by destruct (backing_file (fs (invoke c s).2)) as [[|?]|].
  - assert (Hr : readable (fs (invoke c s).2)).
    { apply (quiet_invoke c s). unfold readable. by rewrite Hb. }
    unfold readable in Hr.
    rewrite (get_loop_result _ _ (invoke c s).2 s).
    rewrite (change_get_loop s c _ _ memory_id s (invoke_change s c) Hc).
    by destruct (backing_file (fs (invoke c s).2)) as [[|?]|].
Qed.

Lemma get_memory_frame_witness :
  (get_memory demo_id1 (invoke (CallDelete demo_id2) demo_two).2).1
    = (get_memory demo_id1 demo_two).1.
Proof.
  apply (get_memory_frame demo_two (CallDelete demo_id2) demo_id1).
  vm_compute. discriminate.
Defined.

(** X13.  Whatever the state, a record operation leaves the records of
    the collection as they were, or changes them in the one way its call
    allows: a [store_memory] with a non-empty title, an allowed kind and a
    content appends the record it built; an [update_memory] rewrites
    content and [updated_at] of the first record with the id; a
    [delete_memory] of an id that occurs drops the records with that id.
    Nothing is ever inserted before an existing record or reordered. *)
Theorem record_operation_transitions s c :
  let l := c_memories (current s) in
  let l' := c_memories (current (invoke c s).2) in
  l' = l \/
  (exists title memory_type content,
     c = CallStore (Some title) (Some memory_type) (Some content) /\
     title ≠ "" /\ memory_type ∈ ALLOWED_MEMORY_TYPES /\
     l' = l ++ [ {| d_id := uuid_str (uuid4_int (os_urandom s (draws s)));
                    d_title := title; d_type := memory_type;
                    d_content := content;
                    d_created_at := utc_now s (ticks s);
                    d_updated_at := None |} ]) \/
  (exists memory_id content l1 m l2,
     c = CallUpdate memory_id content /\
     l = l1 ++ m :: l2 /\ d_id m = memory_id /\
     (memory_id ∉ d_id <$> l1) /\
     l' = l1 ++ {| d_id := d_id m; d_title := d_title m;
                   d_type := d_type m; d_content := content;
                   d_created_at := d_created_at m;
                   d_updated_at := Some (utc_now s (ticks s)) |} :: l2) \/
  (exists memory_id,
     c = CallDelete memory_id /\
     memory_id ∈ d_id <$> l /\
     l' = filter (fun m => d_id m ≠ memory_id) l).
Proof.
  cbv zeta.
  destruct (invoke_change s c) as [c l|l t k ct Ht Hk|l1 m l2 ct Hn|l i Hin].
  - by left.
  - right; left. by exists t, k, ct.
  - right; right; left. by exists (d_id m), ct, l1, m, l2.
  - right; right; right. by exists i.
Qed.

(** X16.  On an activated store that can be read and written,
    [delete_memory] of an id that occurs succeeds and drops every record
    with that id, also when several carry it: the records left are those of
    other ids in their old order, the collection is shorter, and
    [get_memory] of the id raises [MemoryNotFoundError]. *)
Theorem delete_memory_removes_all s p memory_id :
  self_project_id s = Some p -> readable (fs s) -> writable_dir (fs s) ->
  memory_id ∈ d_id <$> c_memories (current s) ->
  exists s1 s2,
    delete_memory memory_id s = (Ok tt, s1) /\
    c_memories (current s1)
      = filter (fun m => d_id m ≠ memory_id) (c_memories (current s)) /\
    length (c_memories (current s1)) < length (c_memories (current s)) /\
    c_project_id (current s1) = c_project_id (current s) /\
    get_memory memory_id s1
      = (Raise (Mem (MemoryNotFoundError memory_id)), s2).
Proof.
  intros Hp Hr [l Hw] Hin.
  assert (Hlt : length (filter (fun m => d_id m ≠ memory_id)
                          (c_memories (current s)))
                < length (c_memories (current s))).
  { clear -Hin. induction (c_memories (current s)) as [|x l' IH];
      [by apply elem_of_nil in Hin|].
    rewrite filter_cons. simpl in Hin.
    destruct (decide (d_id x ≠ memory_id)) as [E|E]; simpl.
    - apply elem_of_cons in Hin as [Hin|Hin]; [congruence|].
      specialize (IH Hin). lia.
    - pose proof (length_filter (fun m => d_id m ≠ memory_id) l'). lia. }
  rewrite (delete_memory_eq _ _ _ Hp Hr). cbv zeta.
  rewrite decide_False by lia. rewrite Hw.
  set (data := {| c_project_id := c_project_id (current s);
                  c_memories := filter (fun m => d_id m ≠ memory_id)
                                  (c_memories (current s)) |}).
  set (s1 := add_log write_events
               (with_fs (persist data (fs s))
                  (add_log (read_events (fs s)) s))).
  assert (Hb : backing_file (fs s1) = Some (Document data)).
  { subst s1. simpl. unfold persist, backing_file. by rewrite Hw. }
  assert (Hp1 : self_project_id s1 = Some p) by done.
  exists s1, (add_log (read_events (fs s1)) s1).
  rewrite (current_of_document _ _ Hb). split_and!; try done.
  rewrite (get_memory_eq _ _ _ Hp1), Hb, (current_of_document _ _ Hb).
  apply get_loop_absent, filter_id_absent.
Qed.

Lemma delete_memory_removes_all_witness :
  exists s1 s2,
    delete_memory demo_id2 demo_two = (Ok tt, s1) /\
    c_memories (current s1)
      = filter (fun m => d_id m ≠ demo_id2) (c_memories (current demo_two)) /\
    length (c_memories (current s1))
      < length (c_memories (current demo_two)) /\
    c_project_id (current s1) = c_project_id (current demo_two) /\
    get_memory demo_id2 s1
      = (Raise (Mem (MemoryNotFoundError demo_id2)), s2).
Proof.
  apply (delete_memory_removes_all demo_two
           "00000000-0330-47f0-9403-f94edb1812b1").
  - reflexivity.
  - vm_compute. discriminate.
  - eexists. vm_compute. reflexivity.
  - apply (bool_decide_unpack _). vm_compute. exact I.
Defined.

(** ** When [store_memory] succeeds, and with which id *)

Lemma uuid_str_shape int :
  String.length (uuid_str int) = 36 /\
  String.get 8 (uuid_str int) = Some "-"%char /\
  String.get 13 (uuid_str int) = Some "-"%char /\
  String.get 18 (uuid_str int) = Some "-"%char /\
  String.get 23 (uuid_str int) = Some "-"%char.
Proof.
  unfold uuid_str, hex32.
  set (g := fun i => hex_digit (N.shiftr int (4 * N.of_nat i))).
  clearbody g. cbn [rev seq app fmap list_fmap take drop].
  split_and!; reflexivity.
Qed.

Lemma store_memory_refused_raises s title memory_type content :
  title = None \/ title = Some "" \/
  (forall t, memory_type = Some t -> t ∉ ALLOWED_MEMORY_TYPES) \/
  content = None ->
  exists x, (store_memory title memory_type content s).1 = Raise x.
Proof.
  intros Hbad. unfold store_memory.
  destruct (self_project_id s) as [p|] eqn:Hp;
    [|rewrite (bind_raise _ _ _ _ _ (_ensure_activated_none _ Hp)); eauto].
  rewrite (bind_ok _ _ _ _ _ (_ensure_activated_some _ _ Hp)).
  destruct title as [t|]; [|by eexists].
  destruct (decide (t = "")) as [->|Ht]; [by eexists|].
  rewrite (bind_ok _ _ _ _ _ (validate_required_field_ok _ _ _ Ht)).
  destruct memory_type as [k|]; [|by eexists].
  destruct (decide (k ∈ ALLOWED_MEMORY_TYPES)) as [Hk|Hk];
    [|rewrite (bind_raise _ _ _ _ _ (validate_memory_type_bad _ _ Hk));
      eauto].
  rewrite (bind_ok _ _ _ _ _ (validate_memory_type_ok _ _ Hk)).
  destruct content as [c|]; [|by eexists].
  destruct Hbad as [?|[[= ->]|[H|?]]]; try done. by destruct (H k).
Qed.

Lemma store_memory_inversion title memory_type content s i s' :
  store_memory title memory_type content s = (Ok i, s') ->
  is_Some (self_project_id s) /\
  accepted (CallStore title memory_type content) /\
  readable (fs s) /\ writable_dir (fs s) /\
  i = uuid_str (uuid4_int (os_urandom s (draws s))).
Proof.
  intros H.
  assert (Hgood : ~ (title = None \/ title = Some "" \/
            (forall t, memory_type = Some t -> t ∉ ALLOWED_MEMORY_TYPES) \/
            content = None)).
  { intros Hbad.
    destruct (store_memory_refused_raises s _ _ _ Hbad) as [x Hx].
    by rewrite H in Hx. }
  destruct (self_project_id s) as [p|] eqn:Hp.
  2:{ unfold store_memory in H.
      by rewrite (bind_raise _ _ _ _ _ (_ensure_activated_none _ Hp)) in H. }
  destruct title as [t|]; [|tauto].
  destruct (decide (t = "")) as [->|Ht]; [tauto|].
  destruct memory_type as [k|]; [|by destruct Hgood; right; right; left].
  destruct (decide (k ∈ ALLOWED_MEMORY_TYPES)) as [Hk|Hk];
    [|destruct Hgood; right; right; left; by intros ? [= <-]].
  destruct content as [ct|]; [|tauto].
  rewrite (store_memory_eq _ _ ct _ _ Hp Ht Hk) in H. cbv zeta in H.
  unfold readable, writable_dir.
  destruct (backing_file (fs s)) as [[|d]|]; [done| |];
    (destruct (infinity_dir (fs s)) as [| |[] l]; try done;
     injection H as <- _;
     split_and!; [done | by exists t, k, ct | done | by eexists | done]).
Qed.


(** X18.  The id a successful [store_memory] returns is the UUID drawn by
    the call, rendered as 36 characters with hyphens after the 8th, 12th,
    16th and 20th hexadecimal digit. *)
Theorem store_memory_id_format title memory_type content s i s' :
  store_memory title memory_type content s = (Ok i, s') ->
  i = uuid_str (uuid4_int (os_urandom s (draws s))) /\
  String.length i = 36 /\
  String.get 8 i = Some "-"%char /\ String.get 13 i = Some "-"%char /\
  String.get 18 i = Some "-"%char /\ String.get 23 i = Some "-"%char.
Proof.
  intros H. destruct (store_memory_inversion _ _ _ _ _ _ H) as (_&_&_&_&->).
  split; [done|]. apply uuid_str_shape.
Qed.

Lemma store_memory_id_format_witness :
  demo_id1 = uuid_str (uuid4_int (os_urandom demo_active (draws demo_active))) /\
  String.length demo_id1 = 36 /\
  String.get 8 demo_id1 = Some "-"%char /\
  String.get 13 demo_id1 = Some "-"%char /\
  String.get 18 demo_id1 = Some "-"%char /\
  String.get 23 demo_id1 = Some "-"%char.
Proof.
  apply (store_memory_id_format (Some "T1") (Some "design_doc") (Some "c1")
           demo_active demo_id1 demo_one).
  vm_compute. reflexivity.
Defined.

(** ** The tools of server.py *)

Lemma serve_record pr c :
  Server.serve (Server.ToolRecord c) pr
    = (match (invoke c (Server.machine (Server.get_storage pr))).1 with
       | Ok r => payload r
       | Raise (Mem e) => Server.RespError (error_code e)
       | Raise _ => Server.RespError "storage_error"
       end,
       {| Server.storage_is_none := false;
          Server.machine := (invoke c (Server.machine (Server.get_storage pr))).2 |}).
Proof.
  assert (Hnone : Server.storage_is_none (Server.get_storage pr) = false).
  { unfold Server.get_storage. by destruct (Server.storage_is_none pr) eqn:E. }
  pose proof (invoke_raises c (Server.machine (Server.get_storage pr))) as H.
  destruct c; unfold Server.serve, Server.store_memory, Server.get_memory,
    Server.list_memories, Server.update_memory, Server.delete_memory,
    Server.call; cbv zeta; rewrite Hnone;
    unfold invoke, bind in *;
    match goal with
    | |- context [?op (Server.machine (Server.get_storage pr))] =>
        destruct (op (Server.machine (Server.get_storage pr))) as [[a|[| |e]] s']
    end; simpl in *; try done; destruct e; simpl in *; done.
Qed.

Lemma serve_activate pr :
  Server.serve Server.ToolActivate pr
    = (match (activate_project (Server.machine (Server.get_storage pr))).1 with
       | Ok p => Server.RespProjectId p
       | Raise (Mem e) => Server.RespError (error_code e)
       | Raise _ => Server.RespError "storage_error"
       end,
       {| Server.storage_is_none := false;
          Server.machine :=
            (activate_project (Server.machine (Server.get_storage pr))).2 |}).
Proof.
  assert (Hnone : Server.storage_is_none (Server.get_storage pr) = false).
  { unfold Server.get_storage. by destruct (Server.storage_is_none pr) eqn:E. }
  unfold Server.serve, Server.activate_project, Server.call. cbv zeta.
  rewrite Hnone.
  by destruct (activate_project (Server.machine (Server.get_storage pr)))
    as [[a|[| |e]] s'].
Qed.



Lemma with_project_id_unset s :
  self_project_id s = None -> with_project_id None s = s.
Proof. destruct s. simpl. by intros ->. Qed.

Lemma serve_all_unset cs pr :
  self_project_id (Server.machine pr) = None ->
  (Server.serve_all (Server.ToolRecord <$> cs) pr).1
    = (fun _ => Server.RespError "project_not_activated") <$> cs /\
  Server.machine (Server.serve_all (Server.ToolRecord <$> cs) pr).2
    = Server.machine pr.
Proof.
  revert pr. induction cs as [|c cs IH]; intros pr Hp; [done|].
  assert (Hm : Server.machine (Server.get_storage pr) = Server.machine pr).
  { unfold Server.get_storage. destruct (Server.storage_is_none pr); [|done].
    simpl. by apply with_project_id_unset. }
  rewrite fmap_cons. cbn [Server.serve_all]. cbv zeta.
  rewrite serve_record, Hm, (invoke_unset _ _ Hp). simpl.
  destruct (IH {| Server.storage_is_none := false;
                  Server.machine := Server.machine pr |} Hp) as [-> ->].
  done.
Qed.

(** X20.  A server process in which [activate_project] has not been
    called answers every record tool call with the error
    project_not_activated, however many are made; the store object is
    created on the first of them, but no file is looked up, read or
    written and nothing else changes. *)
Theorem server_before_activation f random clock cs :
  (Server.serve_all (Server.ToolRecord <$> cs)
     (Server.start f random clock)).1
    = (fun _ => Server.RespError "project_not_activated") <$> cs /\
  Server.machine
    (Server.serve_all (Server.ToolRecord <$> cs)
       (Server.start f random clock)).2
    = __init__ f random clock.
Proof. by apply serve_all_unset. Qed.

Lemma bind_bind_ok {A B C} (m : M A) (k : A -> M B) (k2 : B -> M C) s a s' :
  m s = (Ok a, s') -> bind (bind m k) k2 s = bind (k a) k2 s'.
Proof. unfold bind. by intros ->. Qed.

Lemma raises_not {A} (m : M A) s :
  raises_within (fun e => e ≠ ProjectNotActivatedError) m ->
  (m s).1 ≠ Raise (Mem ProjectNotActivatedError).
Proof. intros H E. specialize (H s). by rewrite E in H. Qed.

Ltac raises_other lem :=
  eapply raises_within_weaken; [apply lem|];
  let e := fresh in intros e ->; discriminate.

Ltac raises_other_steps :=
  repeat first
    [ apply raises_within_bind; [|intros]
    | apply raises_within_ret
    | apply raises_update_loop
    | raises_other raises_validate_required_field
    | raises_other raises_validate_memory_type
    | raises_other raises_read
    | raises_other raises_write
    | raises_other raises_get_loop
    | match goal with
      | |- raises_within _ (match ?x with _ => _ end) => destruct x
      | |- raises_within _ (raise _) => by intros ?
      | |- raises_within _ uuid4 => by intros ?
      | |- raises_within _ get_iso_timestamp => by intros ?
      end ].

(** On an activated store no record operation raises
    [ProjectNotActivatedError]. *)
Lemma invoke_activated c s p :
  self_project_id s = Some p ->
  (invoke c s).1 ≠ Raise (Mem ProjectNotActivatedError).
Proof.
  intros Hp. pose proof (_ensure_activated_some _ _ Hp) as He.
  destruct c; unfold invoke, store_memory, get_memory, list_memories,
    update_memory, delete_memory;
    rewrite (bind_bind_ok _ _ _ _ _ _ He);
    apply raises_not; raises_other_steps.
Qed.

Lemma activate_project_ok_activated s p s1 :
  activate_project s = (Ok p, s1) -> is_Some (self_project_id s1).
Proof.
  destruct s as [q [w [| |wr [i j t]]] lg r n c k].
  - destruct w; cbv -[app uuid_str uuid4_int strip is_Some];
      intros [= <- <-]; by eexists.
  - cbv -[app uuid_str uuid4_int strip is_Some]. by intros [=].
  - destruct i, j, wr; cbv -[app uuid_str uuid4_int strip is_Some];
      intros [= <- <-]; by eexists.
Qed.

Lemma serve_all_activated ts pr :
  Server.storage_is_none pr = false ->
  is_Some (self_project_id (Server.machine pr)) ->
  Forall (fun r => r ≠ Server.RespError "project_not_activated")
    (Server.serve_all ts pr).1.
Proof.
  revert pr. induction ts as [|t ts IH]; intros pr Hn Hp; [constructor|].
  assert (Hg : Server.get_storage pr = pr).
  { unfold Server.get_storage. by rewrite Hn. }
  cbn [Server.serve_all]. cbv zeta. simpl. destruct t as [|c].
  - rewrite serve_activate, Hg. simpl. constructor.
    + pose proof (activate_project_raises (Server.machine pr)) as H.
      destruct (activate_project (Server.machine pr)).1 as [a|[| |e]];
        try done. by destruct e.
    + apply IH; [done|]. simpl. by apply activate_project_stays_activated.
  - rewrite serve_record, Hg. simpl. destruct Hp as [p Hp]. constructor.
    + pose proof (invoke_activated c _ _ Hp) as H.
      destruct (invoke c (Server.machine pr)).1 as [r|[| |e]];
        [by destruct r | done | done |].
      destruct e; try done.
    + apply IH; [done|]. simpl. rewrite invoke_keeps_project_id. eauto.
Qed.

(** X21.  Once the [activate_project] tool has answered with a project
    id, no later tool call of the process is answered with
    project_not_activated: the one store object is reused, record
    operations do not touch its project id, and a later activation, even
    one that fails, does not unset it. *)
Theorem activation_persists pr project_id pr' ts :
  Server.serve Server.ToolActivate pr
    = (Server.RespProjectId project_id, pr') ->
  Forall (fun r => r ≠ Server.RespError "project_not_activated")
    (Server.serve_all ts pr').1.
Proof.
  rewrite serve_activate.
  destruct (activate_project (Server.machine (Server.get_storage pr)))
    as [[a|[| |e]] s1] eqn:E; simpl; intros [= <- <-].
  apply serve_all_activated; [done|]. simpl.
  by apply (activate_project_ok_activated _ _ _ E).
Qed.

Lemma activation_persists_witness :
  Forall (fun r => r ≠ Server.RespError "project_not_activated")
    (Server.serve_all
       [Server.ToolRecord (CallGet "invalid-uuid");
        Server.ToolActivate;
        Server.ToolRecord (CallStore (Some "") None None)]
       (Server.serve Server.ToolActivate
          (Server.start fresh_dir demo_random demo_clock)).2).1.
Proof.
  eapply (activation_persists
            (Server.start fresh_dir demo_random demo_clock)).
  vm_compute. reflexivity.
Defined.

(** ** What the tools hand out *)

Lemma metadata_dict_keys (md : MemoryMetadata) :
  dom (MemoryMetadata_to_dict md) = ({[ "id"; "title"; "type" ]} : gset string)
  /\ MemoryMetadata_to_dict md !! "content" = None.
Proof.
  unfold MemoryMetadata_to_dict. split.
  - by rewrite !dom_insert_L, dom_singleton_L.
  - by simplify_map_eq.
Qed.

(** X22.  On an activated store with a readable backing file, the
    [list_memories] tool answers with one dictionary for each record whose
    kind equals the filter (for every record when there is no filter), in
    the order of the collection, holding the record's id, title and kind
    under the keys id, title and type and no other key; the content is
    never part of the answer. *)
Theorem list_tool_entries s p type :
  self_project_id s = Some p -> readable (fs s) ->
  exists entries pr',
    Server.list_memories type
      {| Server.storage_is_none := false; Server.machine := s |}
      = (Server.RespMemories entries, pr') /\
    entries
      = (fun m => {[ "id" := d_id m; "title" := d_title m;
                     "type" := d_type m ]})
          <$> match type with
              | Some t => filter (fun m => d_type m = t) (c_memories (current s))
              | None => c_memories (current s)
              end /\
    Forall (fun d : gmap string string =>
              dom d = {[ "id"; "title"; "type" ]} /\ d !! "content" = None)
      entries /\
    fs (Server.machine pr') = fs s.
Proof.
  intros Hp Hr. unfold Server.list_memories, Server.call, Server.get_storage.
  cbv zeta. simpl. rewrite (list_memories_eq _ _ _ Hp). unfold readable in Hr.
  eexists _, _. split_and!.
  - by destruct (backing_file (fs s)) as [[|?]|].
  - rewrite <- list_fmap_compose. done.
  - apply Forall_fmap, Forall_true. intros md. apply metadata_dict_keys.
  - by destruct (backing_file (fs s)) as [[|?]|].
Qed.

Lemma list_tool_entries_witness :
  exists entries pr',
    Server.list_memories (Some "design_doc")
      {| Server.storage_is_none := false; Server.machine := demo_two |}
      = (Server.RespMemories entries, pr') /\
    entries
      = (fun m => {[ "id" := d_id m; "title" := d_title m;
                     "type" := d_type m ]})
          <$> filter (fun m => d_type m = "design_doc")
                (c_memories (current demo_two)) /\
    Forall (fun d : gmap string string =>
              dom d = {[ "id"; "title"; "type" ]} /\ d !! "content" = None)
      entries /\
    fs (Server.machine pr') = fs demo_two.
Proof.
  apply (list_tool_entries demo_two "00000000-0330-47f0-9403-f94edb1812b1"
           (Some "design_doc")).
  - reflexivity.
  - vm_compute. discriminate.
Defined.

(** X23.  On an activated store with a readable backing file, the
    [get_memory] tool answers an id that occurs with the first dictionary
    of the backing file that carries it, all six fields exactly as stored
    (the passage through the [Memory] object loses nothing), and any other
    id with the error memory_not_found. *)
Theorem get_tool_returns_stored s p memory_id :
  self_project_id s = Some p -> readable (fs s) ->
  (forall l1 m l2,
     c_memories (current s) = l1 ++ m :: l2 ->
     memory_id ∉ d_id <$> l1 -> d_id m = memory_id ->
     (Server.get_memory memory_id
        {| Server.storage_is_none := false; Server.machine := s |}).1
       = Server.RespMemory m) /\
  (memory_id ∉ d_id <$> c_memories (current s) ->
   (Server.get_memory memory_id
      {| Server.storage_is_none := false; Server.machine := s |}).1
     = Server.RespError "memory_not_found").
Proof.
  intros Hp Hr. unfold Server.get_memory, Server.call, Server.get_storage.
  cbv zeta. simpl. rewrite (get_memory_eq _ _ _ Hp). unfold readable in Hr.
  split.
  - intros l1 m l2 Hc Hn Hm. rewrite Hc.
    destruct (backing_file (fs s)) as [[|?]|]; [done| |];
      rewrite (get_loop_first _ _ _ _ _ Hn Hm); simpl; by destruct m.
  - intros Hn.
    destruct (backing_file (fs s)) as [[|?]|]; [done| |];
      by rewrite (get_loop_absent _ _ _ Hn).
Qed.

Lemma get_tool_returns_stored_witness :
  (Server.get_memory demo_id1
     {| Server.storage_is_none := false; Server.machine := demo_one |}).1
    = Server.RespMemory
        (to_dict (new_memory "T1" "design_doc" "c1" demo_active)) /\
  (Server.get_memory "invalid-uuid"
     {| Server.storage_is_none := false; Server.machine := demo_one |}).1
    = Server.RespError "memory_not_found".
Proof.
  assert (Hp : self_project_id demo_one
               = Some "00000000-0330-47f0-9403-f94edb1812b1") by reflexivity.
  assert (Hr : readable (fs demo_one)) by (vm_compute; discriminate).
  split.
  - apply (proj1 (get_tool_returns_stored demo_one _ demo_id1 Hp Hr) [] _ []).
    + vm_compute. reflexivity.
    + apply not_elem_of_nil.
    + reflexivity.
  - apply (proj2 (get_tool_returns_stored demo_one _ "invalid-uuid" Hp Hr)).
    apply (bool_decide_unpack _). vm_compute. exact I.
Defined.

(** ** Where files change *)







(** X25.  [activate_project] never changes the records: the collection
    an operation would work on is the same before and after an activation,
    in every state and whether the activation succeeds or raises, and a
    backing file that exists is left as it is, even one that does not
    parse. *)
Theorem activation_keeps_collection s :
  c_memories (current (activate_project s).2) = c_memories (current s) /\
  (backing_file (fs s) ≠ None ->
   backing_file (fs (activate_project s).2) = backing_file (fs s)).
Proof.
  split; [apply activate_project_keeps_records|].
  destruct s as [q [w [| |wr [i j t]]] lg r n c k]; try done.
  destruct j as [b|]; [intros _|done].
  by destruct i, wr.
Qed.

(** X26.  If the ids of the collection are pairwise distinct, they still
    are after any record operation, provided that for a [store_memory] the
    UUID the call would draw is not already the id of a record. *)
Theorem record_operation_keeps_unique_ids s c :
  unique_ids (c_memories (current s)) ->
  match c with
  | CallStore _ _ _ =>
      uuid_str (uuid4_int (os_urandom s (draws s)))
        ∉ d_id <$> c_memories (current s)
  | _ => True
  end ->
  unique_ids (c_memories (current (invoke c s).2)).
Proof.
  unfold unique_ids. intros Hu Hc.
  destruct (invoke_change s c) as [c l|l t k ct Ht Hk|l1 m l2 ct Hn|l i Hin].
  - done.
  - rewrite fmap_app. apply NoDup_app. split_and!; [done| |].
    + intros x Hx Hx'. apply list_elem_of_singleton in Hx'.
      simpl in Hx'. congruence.
    + apply NoDup_singleton.
  - by rewrite !fmap_app, !fmap_cons in *.
  - eapply sublist_NoDup; [exact Hu|].
    apply fmap_sublist, sublist_filter.
Qed.

Lemma record_operation_keeps_unique_ids_witness :
  unique_ids
    (c_memories
       (current
          (invoke (CallStore (Some "T3") (Some "analysis") (Some "")) demo_two).2)).
Proof.
  apply (record_operation_keeps_unique_ids demo_two).
  - apply (bool_decide_unpack _). vm_compute. exact I.
  - apply (bool_decide_unpack _). vm_compute. exact I.
Defined.

(** X27.  A backing file that is missing or parses is still missing or
    parsable after any sequence of record operations, activations and new
    store objects: the store only ever writes whole, well-formed
    documents. *)
Theorem steps_keep_readable steps s :
  readable (fs s) -> readable (fs (run steps s)).
Proof.
  revert s. induction steps as [|st steps IH]; intros s Hr; simpl; [done|].
  by apply IH, step_keeps_readable.
Qed.

Lemma steps_keep_readable_witness :
  readable
    (fs (run [Activate;
              Record_ (CallStore (Some "T1") (Some "design_doc") (Some "c1"));
              NewInstance; Activate;
              Record_ (CallDelete demo_id1)] demo_new)).
Proof.
  apply (steps_keep_readable _ demo_new). vm_compute. discriminate.
Defined.
